(** * brunch: lib/helpers.js

    A shallow embedding of the three helpers of [lib/helpers.js] that carry
    logic: the compilation-summary generator [generateCompilationLog], the
    progress animator [getCompilationProgress], and the plugin invoker
    [callPlugin] together with its watchdog [safePromise].  The generic
    helpers [flatten], [deepAssign], [asyncFilter], [deepFreeze] and
    [promiseReduce] follow.

    Conventions.
    - JavaScript numbers that hold counts and millisecond timestamps are
      integers here: [nat] for array lengths, [Z] for timestamps and for
      everything that is computed by subtraction.
    - A [forEach] over an array that mutates locals is a [fold_left] over the
      record of those locals.
    - [Date.now()] is an explicit argument [now]; [basename] of [./path] and
      the floating-point [toFixed(1)] are parameters.
    - A promise is a cell that is resolved at most once.  An object with a
      callable [then] is taken to be a native promise.  The event loop is a
      list of tasks (the watchdog interval elapses, the completion callback
      is invoked, a promise of the environment settles), each followed by
      the promise jobs it enables. *)

From Stdlib Require Import ZArith List Bool Lia.
From Stdlib Require Import Strings.String Strings.Ascii Numbers.DecimalString.
Import ListNotations.

Local Open Scope Z_scope.
Local Open Scope list_scope.

(** ** JavaScript primitives *)

Module Js.

(** Template-literal rendering of an integer-valued number:
    [`${n}`]. *)
Definition string_of_nat (n : nat) : string :=
  NilZero.string_of_uint (Nat.to_uint n).

Definition string_of_Z (z : Z) : string :=
  NilZero.string_of_int (Z.to_int z).

(** [Array.prototype.toString] on an array of strings, which is what
    [`${array}`] calls: the elements joined by a comma. *)
Definition toString (xs : list string) : string := String.concat "," xs.

(** [Array.prototype.includes] on an array of strings. *)
Definition includes (x : string) (xs : list string) : bool :=
  existsb (String.eqb x) xs.

(** Truthiness of a string: only the empty string is falsy. *)
Definition nonEmpty (s : string) : bool :=
  match s with EmptyString => false | String _ _ => true end.

(** [String.prototype.slice(0, n)] for [0 <= n]. *)
Fixpoint slice0 (s : string) (n : nat) : string :=
  match n, s with
  | S k, String c rest => String c (slice0 rest k)
  | _, _ => EmptyString
  end.

End Js.

(** ** Data consumed by the summary generator *)

Record Asset := { asset_path : string; copyTime : Z }.

Record SourceFile := { source_path : string; compilationTime : Z }.

(** A generated file is a JavaScript object: [dgen.includes(generatedFile)]
    compares object identities, so the object carries its identity [oid]. *)
Record GeneratedFile :=
  { oid : nat; generated_path : string; sourceFiles : list SourceFile }.

Record DisposedFiles :=
  { disposed_generated : list GeneratedFile; sourcePaths : list string }.

(** [getName] is applied to anything that has a [path] property. *)
Class HasPath (A : Type) := path : A -> string.
#[global] Instance Asset_path : HasPath Asset := asset_path.
#[global] Instance SourceFile_path : HasPath SourceFile := source_path.
#[global] Instance GeneratedFile_path : HasPath GeneratedFile := generated_path.

(** [dgen.includes(generatedFile)]: membership by object identity. *)
Definition includesObject (g : GeneratedFile) (dgen : list GeneratedFile) : bool :=
  existsb (fun d => Nat.eqb (oid d) (oid g)) dgen.

(** The locals of the inner [forEach] (lines 107-108) together with the
    shared [compiled] array it pushes to. *)
Record scan :=
  { isChanged : bool; locallyCompiledCount : Z; scan_compiled : list string }.

(** The locals of [generateCompilationLog] that the outer [forEach] updates
    (lines 102-104). *)
Record tally :=
  { generated : list string; compiled : list string; cachedCount : Z }.

Section Summary.

(** [basename] comes from [./path]; [toFixed1 diff] stands for
    [(diff / 1000).toFixed(1)], a floating-point rendering. *)
Variable basename : string -> string.
Variable toFixed1 : Z -> string.

Definition getName {A : Type} `{HasPath A} (file : A) : string :=
  basename (path file).

(** Line 101. *)
Definition copiedNames (startTime : Z) (allAssets : list Asset) : list string :=
  map getName (filter (fun a => startTime <? copyTime a) allAssets).

(** Body of the inner [forEach], lines 110-120. *)
Definition visitSource (startTime : Z) (dgen : list GeneratedFile)
    (generatedFile : GeneratedFile) (s : scan) (sourceFile : SourceFile) : scan :=
  let s1 :=
    if startTime <=? compilationTime sourceFile then
      let sourceName := getName sourceFile in
      {| isChanged := true;
         locallyCompiledCount := locallyCompiledCount s + 1;
         scan_compiled :=
           if Js.includes sourceName (scan_compiled s)
           then scan_compiled s
           else scan_compiled s ++ [sourceName] |}
    else s in
  if negb (isChanged s1) && includesObject generatedFile dgen
  then {| isChanged := true;
          locallyCompiledCount := locallyCompiledCount s1;
          scan_compiled := scan_compiled s1 |}
  else s1.

Definition scanSources (startTime : Z) (dgen : list GeneratedFile)
    (generatedFile : GeneratedFile) (compiled0 : list string) : scan :=
  fold_left (visitSource startTime dgen generatedFile)
    (sourceFiles generatedFile)
    {| isChanged := false; locallyCompiledCount := 0; scan_compiled := compiled0 |}.

(** Body of the outer [forEach], lines 106-125. *)
Definition visitGenerated (startTime : Z) (dgen : list GeneratedFile)
    (t : tally) (generatedFile : GeneratedFile) : tally :=
  let len := Z.of_nat (List.length (sourceFiles generatedFile)) in
  let s := scanSources startTime dgen generatedFile (compiled t) in
  if isChanged s then
    {| generated := generated t ++ [getName generatedFile];
       compiled := scan_compiled s;
       cachedCount := cachedCount t + (len - locallyCompiledCount s) |}
  else
    {| generated := generated t;
       compiled := scan_compiled s;
       cachedCount := cachedCount t |}.

Definition classify (startTime : Z) (generatedFiles : list GeneratedFile)
    (disposedFiles : DisposedFiles) : tally :=
  fold_left (visitGenerated startTime (disposed_generated disposedFiles))
    generatedFiles
    {| generated := []; compiled := []; cachedCount := 0 |}.

(** Lines 127-133. *)
Definition generatedLog (generated : list string) : string :=
  match List.length generated with
  | 0%nat => ""
  | 1%nat => " into " ++ Js.toString generated
  | n => " into " ++ Js.string_of_nat n ++ " files"
  end%string.

(** Lines 134-146. *)
Definition compiledLog (compiled disposed : list string) : string :=
  match List.length compiled with
  | 0%nat =>
      match List.length disposed with
      | 0%nat => ""
      | 1%nat => "removed " ++ Js.toString disposed
      | n => "removed " ++ Js.string_of_nat n
      end
  | 1%nat => "compiled " ++ Js.toString compiled
  | n => "compiled " ++ Js.string_of_nat n
  end%string.

(** Lines 147-159. *)
Definition cachedLog (cachedCount : Z) (compiled generated : list string) : string :=
  if cachedCount =? 0 then
    if (List.length compiled <=? 1)%nat then ""%string else " files"%string
  else
    match List.length compiled with
    | 0%nat =>
        let noun :=
          if (1 <? List.length generated)%nat then ""%string else " files"%string in
        (" and wrote " ++ Js.string_of_Z cachedCount ++ " cached" ++ noun)%string
    | 1%nat =>
        let cachedCountName :=
          ("file" ++ (if (cachedCount =? 1)%Z then "" else "s"))%string in
        (" and " ++ Js.string_of_Z cachedCount ++ " cached " ++ cachedCountName)%string
    | _ => (" files and " ++ Js.string_of_Z cachedCount ++ " cached")%string
    end.

(** Lines 162-170. *)
Definition assetsLog (copied compiled : list string) : string :=
  match List.length copied with
  | 0%nat => ""
  | 1%nat => "copied " ++ Js.toString copied
  | n =>
      match List.length compiled with
      | 0%nat => "copied " ++ Js.string_of_nat n ++ " files"
      | _ => "copied " ++ Js.string_of_nat n
      end
  end%string.

(** The local [main] of line 171. *)
Definition mainLog (startTime : Z) (allAssets : list Asset)
    (generatedFiles : list GeneratedFile) (disposedFiles : DisposedFiles) : string :=
  let copied := copiedNames startTime allAssets in
  let t := classify startTime generatedFiles disposedFiles in
  let disposed := sourcePaths disposedFiles in
  let nonAssetsLog :=
    (compiledLog (compiled t) disposed
     ++ cachedLog (cachedCount t) (compiled t) (generated t)
     ++ generatedLog (generated t))%string in
  let sep :=
    if Js.nonEmpty nonAssetsLog && negb (List.length copied =? 0)%nat
    then ", "%string else ""%string in
  (nonAssetsLog ++ sep ++ assetsLog copied (compiled t))%string.

(** Lines 172-176. *)
Definition diffText (diff : Z) : string :=
  if 1000 <? diff
  then (toFixed1 diff ++ " sec")%string
  else (Js.string_of_Z diff ++ " ms")%string.

(** The text before [" in "] on line 177: [main || 'compiled']. *)
Definition headline (startTime : Z) (allAssets : list Asset)
    (generatedFiles : list GeneratedFile) (disposedFiles : DisposedFiles) : string :=
  let main := mainLog startTime allAssets generatedFiles disposedFiles in
  if Js.nonEmpty main then main else "compiled"%string.

(** Lines 99-178; [now] is the value read from [Date.now()]. *)
Definition generateCompilationLog (now startTime : Z) (allAssets : list Asset)
    (generatedFiles : list GeneratedFile) (disposedFiles : DisposedFiles) : string :=
  (headline startTime allAssets generatedFiles disposedFiles
   ++ " in " ++ diffText (now - startTime))%string.

End Summary.

(** A stand-in for [./path]'s [basename] on POSIX paths without a trailing
    separator: the text after the last ["/"]. *)
Fixpoint lastSegment (acc s : string) : string :=
  match s with
  | EmptyString => acc
  | String c rest =>
      if Ascii.eqb c "/"%char then lastSegment EmptyString rest
      else lastSegment (acc ++ String c EmptyString)%string rest
  end.

Definition posixBasename (p : string) : string := lastSegment EmptyString p.

(** *** Closed forms used to state what the loops compute *)

(** The test of line 111. *)
Definition compiledNow (startTime : Z) (sourceFile : SourceFile) : bool :=
  startTime <=? compilationTime sourceFile.

(** Lines 115-117: [if (!compiled.includes(name)) compiled.push(name)]. *)
Definition pushUnique (acc : list string) (name : string) : list string :=
  if Js.includes name acc then acc else acc ++ [name].

(** What lines 107-120 leave in [isChanged]: the membership in
    [disposed.generated] is tested inside the loop over the source files, so
    it is only consulted when there is at least one source file. *)
Definition changedThisPass (startTime : Z) (dgen : list GeneratedFile)
    (g : GeneratedFile) : bool :=
  existsb (compiledNow startTime) (sourceFiles g)
  || (negb (Nat.eqb (List.length (sourceFiles g)) 0) && includesObject g dgen).

(** ** The progress animator, lines 180-201 *)

Definition animationLogInterval : Z := 4000.

(** The closure state of [getCompilationProgress]: the counter
    [iterations], the delay of the timeout that is currently scheduled
    ([None] once [clearTimeout] has been called), and the lines handed to
    [logger] so far. *)
Record animator :=
  { iterations : nat; scheduled : option Z; emitted : list string }.

(** Lines 183-189 and 199; [timePassed] is [None] when the argument is
    [undefined]. *)
Definition getCompilationProgress (timePassed : option Z) : animator :=
  let timePassed :=
    match timePassed with
    | Some t => t
    | None => 0
    end in
  let initRunIn :=
    if timePassed =? 0 then animationLogInterval
    else animationLogInterval - timePassed in
  let initRunIn := if initRunIn <? 0 then 0 else initRunIn in
  {| iterations := 0; scheduled := Some initRunIn; emitted := [] |}.

(** Lines 191-197. *)
Definition writeWithDots (a : animator) : animator :=
  let msg :=
    if Nat.eqb (iterations a) 7 then "still compiling"%string
    else "compiling"%string in
  let line := (msg ++ Js.slice0 "..." (iterations a mod 4))%string in
  {| iterations := S (iterations a);
     scheduled := Some animationLogInterval;
     emitted := emitted a ++ [line] |}.

(** The scheduled timeout elapses. *)
Definition fire (a : animator) : animator :=
  match scheduled a with
  | Some _ => writeWithDots a
  | None => a
  end.

(** The function returned on line 200. *)
Definition cancel (a : animator) : animator :=
  {| iterations := iterations a; scheduled := None; emitted := emitted a |}.

(** The local [line] of line 193 when [iterations] is [i]. *)
Definition lineAt (i : nat) : string :=
  ((if Nat.eqb i 7 then "still compiling" else "compiling")
   ++ Js.slice0 "..." (i mod 4))%string.

(** The line emitted by the tick of index [i]. *)
Definition tickLine (timePassed : option Z) (i : nat) : option string :=
  nth_error (emitted (Nat.iter (S i) fire (getCompilationProgress timePassed))) i.

(** [n] dots. *)
Fixpoint dots (n : nat) : string :=
  match n with
  | O => EmptyString
  | S k => String "."%char (dots k)
  end.

(** ** Values, promises and the event loop *)

(** JavaScript values as far as [callPlugin] looks at them.  [VThenable] is
    an object whose [then] property is a function; such objects are taken to
    be native promises, identified by [ref].  [VObject] is any other object,
    for instance an [Error]. *)
Inductive value :=
| VUndefined
| VNull
| VBoolean (b : bool)
| VNumber (n : Z)
| VNaN
| VString (s : string)
| VObject (ref : nat)
| VThenable (ref : nat).

(** ToBoolean. *)
Definition truthy (v : value) : bool :=
  match v with
  | VUndefined | VNull | VNaN => false
  | VBoolean b => b
  | VNumber n => negb (n =? 0)
  | VString s => Js.nonEmpty s
  | VObject _ | VThenable _ => true
  end.

(** [typeof v.then === 'function']. *)
Definition thenIsFunction (v : value) : bool :=
  match v with
  | VThenable _ => true
  | _ => false
  end.

(** Line 11. *)
Definition isPromise (promise : value) : bool :=
  truthy promise && thenIsFunction promise.

(** How a function call completes. *)
Inductive completion :=
| Return (v : value)
| Throw (e : value).

(** How a promise of the environment has settled. *)
Inductive outcome :=
| Fulfil (v : value)
| Reject (r : value).

(** The state of a promise created by the code under study.  [Following t]
    is a promise that was resolved with the promise [t] and waits for it. *)
Inductive pstate :=
| Pending
| Following (t : nat)
| Fulfilled (v : value)
| Rejected (r : value).

(** The two resolving functions handed to a promise executor: they act only
    on a promise that has not been resolved yet. *)
Definition resolve (p : pstate) (v : value) : pstate :=
  match p with
  | Pending =>
      match v with
      | VThenable t => Following t
      | _ => Fulfilled v
      end
  | _ => p
  end.

Definition reject (p : pstate) (r : value) : pstate :=
  match p with
  | Pending => Rejected r
  | _ => p
  end.

Definition isSettled (p : pstate) : bool :=
  match p with
  | Fulfilled _ | Rejected _ => true
  | Pending | Following _ => false
  end.

Definition adopt (o : outcome) : pstate :=
  match o with
  | Fulfil v => Fulfilled v
  | Reject r => Rejected r
  end.

(** The promises of the environment that have settled so far. *)
Definition world := nat -> option outcome.

Definition nothingSettled : world := fun _ => None.

(** A promise settles once: a second settlement is ignored. *)
Definition settle (w : world) (t : nat) (o : outcome) : world :=
  fun t' =>
    if Nat.eqb t' t then
      match w t with
      | Some o' => Some o'
      | None => Some o
      end
    else w t'.

(** A promise that follows [t] takes over the state of [t] once [t] has
    settled. *)
Definition follow (w : world) (p : pstate) : pstate :=
  match p with
  | Following t =>
      match w t with
      | Some o => adopt o
      | None => p
      end
  | _ => p
  end.

(** ** The watchdog, lines 13-25 *)

(** The promise handed to [safePromise] by [callPlugin]: the promise it built
    itself on lines 50-55, or the promise returned by the hook. *)
Inductive operation :=
| OwnPromise
| Thenable (t : nat).

(** The state owned by one call of [safePromise]: the interval [warn], what
    it has logged, the reaction registered by [then] and the promise that
    [then] returned. *)
Record watchdog :=
  { guarded : operation;
    intervalTime : Z;
    timeoutMessage : string;
    warnActive : bool;
    clearIntervalCalls : nat;
    warnings : list string;
    reacted : bool;
    derived : pstate }.

(** Lines 14-16 and the call of [then] on line 18. *)
Definition safePromise (promise : operation) (intervalTime : Z)
    (timeoutMessage : string) : watchdog :=
  {| guarded := promise;
     intervalTime := intervalTime;
     timeoutMessage := timeoutMessage;
     warnActive := true;
     clearIntervalCalls := 0;
     warnings := [];
     reacted := false;
     derived := Pending |}.

(** [clearInterval(warn)]. *)
Definition clearInterval (g : watchdog) : watchdog :=
  {| guarded := guarded g;
     intervalTime := intervalTime g;
     timeoutMessage := timeoutMessage g;
     warnActive := false;
     clearIntervalCalls := S (clearIntervalCalls g);
     warnings := warnings g;
     reacted := reacted g;
     derived := derived g |}.

(** The interval callback of lines 14-16, run when [intervalTime] has
    elapsed once more and the interval has not been cleared. *)
Definition tick (g : watchdog) : watchdog :=
  if warnActive g then
    {| guarded := guarded g;
       intervalTime := intervalTime g;
       timeoutMessage := timeoutMessage g;
       warnActive := warnActive g;
       clearIntervalCalls := clearIntervalCalls g;
       warnings := warnings g ++ [timeoutMessage g];
       reacted := reacted g;
       derived := derived g |}
  else g.

(** Lines 18-21: [value => { clearInterval(warn); return value; }]. *)
Definition onFulfilled (g : watchdog) (value : value) : watchdog * completion :=
  (clearInterval g, Return value).

(** Lines 21-24: [reason => { clearInterval(warn); throw reason; }]. *)
Definition onRejected (g : watchdog) (reason : value) : watchdog * completion :=
  (clearInterval g, Throw reason).

(** A handler has run: the promise returned by [then] is resolved with what
    the handler returned, or rejected with what it threw. *)
Definition settleDerived (gc : watchdog * completion) : watchdog :=
  let (g, c) := gc in
  {| guarded := guarded g;
     intervalTime := intervalTime g;
     timeoutMessage := timeoutMessage g;
     warnActive := warnActive g;
     clearIntervalCalls := clearIntervalCalls g;
     warnings := warnings g;
     reacted := true;
     derived :=
       match c with
       | Return v => resolve (derived g) v
       | Throw e => reject (derived g) e
       end |}.

(** The reaction registered by [promise.then(onFulfilled, onRejected)]: it
    runs once, when the guarded promise is found settled. *)
Definition thenReaction (st : pstate) (g : watchdog) : watchdog :=
  if reacted g then g
  else
    match st with
    | Fulfilled v => settleDerived (onFulfilled g v)
    | Rejected r => settleDerived (onRejected g r)
    | Pending | Following _ => g
    end.

Definition followDerived (w : world) (g : watchdog) : watchdog :=
  {| guarded := guarded g;
     intervalTime := intervalTime g;
     timeoutMessage := timeoutMessage g;
     warnActive := warnActive g;
     clearIntervalCalls := clearIntervalCalls g;
     warnings := warnings g;
     reacted := reacted g;
     derived := follow w (derived g) |}.

(** ** The plugin invoker, lines 47-64 *)

Record File := { file_path : string; file_data : value }.

(** What a hook can be called with.  [ArgCallback] is the arrow function of
    lines 51-54. *)
Inductive argument :=
| ArgFile (file : File)
| ArgValue (v : value)
| ArgCallback.

(** What a hook does while it is being called: the invocations [(error,
    data)] of the completion callback it makes before it returns, in order,
    and how the call completes. *)
Record hookRun := { calls : list (value * value); completes : completion }.

(** A function found in a plugin: its declared parameter count [fn.length]
    and its behaviour on an argument list. *)
Record hook := { fn_length : nat; fn_apply : list argument -> hookRun }.

(** A plugin: [plugin.constructor.name] and [plugin[method]], which is
    [None] when the property is missing. *)
Record plugin := { constructor_name : string; member : string -> option hook }.

(** What one call of [callPlugin] owns after it has returned: the promise of
    lines 50-55 and the watchdog around the guarded promise. *)
Record invocation := { own : pstate; dog : watchdog }.

(** Lines 51-54: [(error, data) => { if (error) reject(error); else
    resolve(data); }]. *)
Definition completionCallback (p : pstate) (error data : value) : pstate :=
  if truthy error then reject p error else resolve p data.

Definition applyCall (p : pstate) (c : value * value) : pstate :=
  completionCallback p (fst c) (snd c).

(** A synchronous call either throws or returns. *)
Inductive callResult :=
| Threw (e : value)
| ThrewTypeError
| Returned (i : invocation).

(** The guarded promise chosen on line 60 once [isPromise(result)] holds. *)
Definition promiseOf (result : value) : operation :=
  match result with
  | VThenable t => Thenable t
  | _ => OwnPromise
  end.

Definition warningLogInterval : Z := 15000.

(** Line 62. *)
Definition tooLongMessage (p : plugin) (method : string) (file : File) : string :=
  (constructor_name p ++ " is taking too long to " ++ method
   ++ " @ " ++ file_path file)%string.

(** Lines 47-64.  Reading [fn.length] of a missing property throws a
    [TypeError]; a hook that throws makes line 57 throw, which nothing
    catches. *)
Definition callPlugin (p : plugin) (method : string) (file : File) : callResult :=
  match member p method with
  | None => ThrewTypeError
  | Some fn =>
      let args :=
        if Nat.eqb (fn_length fn) 1 then [ArgFile file]
        else [ArgValue (file_data file); ArgValue (VString (file_path file))] in
      let promise := Pending in
      let args := args ++ [ArgCallback] in
      let ran := fn_apply fn args in
      let promise := fold_left applyCall (calls ran) promise in
      match completes ran with
      | Throw e => Threw e
      | Return result =>
          Returned
            {| own := promise;
               dog :=
                 safePromise
                   (if isPromise result then promiseOf result else OwnPromise)
                   warningLogInterval
                   (tooLongMessage p method file) |}
      end
  end.

(** The argument list the hook is applied to on line 57: the one of line 49
    with the callback pushed on line 51. *)
Definition hookArguments (fn : hook) (file : File) : list argument :=
  (if Nat.eqb (fn_length fn) 1 then [ArgFile file]
   else [ArgValue (file_data file); ArgValue (VString (file_path file))])
  ++ [ArgCallback].


(** ** The event loop *)

(** What can happen after [callPlugin] has returned: the watchdog interval
    elapses, the hook (or something it started) invokes the completion
    callback, or a promise of the environment settles. *)
Inductive event :=
| Tick
| Callback (error data : value)
| Settles (t : nat) (o : outcome).

(** The state of the guarded promise. *)
Definition operationState (w : world) (ownState : pstate) (op : operation) : pstate :=
  match op with
  | OwnPromise => ownState
  | Thenable t =>
      match w t with
      | Some o => adopt o
      | None => Pending
      end
  end.

(** The promise jobs that run once the current task has finished: the own
    promise takes over the state of a promise it follows, the reaction of
    [then] runs if the guarded promise is settled, and the derived promise
    takes over the state of a promise it follows. *)
Definition react (w : world) (i : invocation) : invocation :=
  let own' := follow w (own i) in
  let st := operationState w own' (guarded (dog i)) in
  {| own := own'; dog := followDerived w (thenReaction st (dog i)) |}.

Definition step (s : world * invocation) (ev : event) : world * invocation :=
  let (w, i) := s in
  match ev with
  | Tick => (w, react w {| own := own i; dog := tick (dog i) |})
  | Callback error data =>
      (w, react w {| own := completionCallback (own i) error data; dog := dog i |})
  | Settles t o => (settle w t o, react (settle w t o) i)
  end.

(** The state reached from the return of [callPlugin] through the events
    [evs], in a world where the promises of [w] have already settled. *)
Definition run (w : world) (i : invocation) (evs : list event) : world * invocation :=
  fold_left step evs (w, react w i).

Definition finalWorld (w : world) (i : invocation) (evs : list event) : world :=
  fst (run w i evs).

Definition finalState (w : world) (i : invocation) (evs : list event) : invocation :=
  snd (run w i evs).

(** The promise returned by [callPlugin], as seen after [evs]. *)
Definition returnedPromise (w : world) (i : invocation) (evs : list event) : pstate :=
  derived (dog (finalState w i evs)).

(** The invocations of the completion callback among the events. *)
Fixpoint callbacksOf (evs : list event) : list (value * value) :=
  match evs with
  | [] => []
  | Callback error data :: rest => (error, data) :: callbacksOf rest
  | _ :: rest => callbacksOf rest
  end.


(** Every invocation of the completion callback made for one call of
    [callPlugin], the synchronous ones first. *)
Definition allCalls (ran : hookRun) (evs : list event) : list (value * value) :=
  calls ran ++ callbacksOf evs.

(** *** Invariants of the event loop *)

Definition guardedState (w : world) (i : invocation) : pstate :=
  operationState w (own i) (guarded (dog i)).

(** What holds of the watchdog whatever the state of the guarded promise:
    either the reaction has not run, the interval is live, and the derived
    promise is pending; or it has run on a settled promise, the interval was
    cleared once, and the derived promise carries what the guarded promise
    carries. *)
Definition armed (w : world) (i : invocation) : Prop :=
  if reacted (dog i) then
    isSettled (guardedState w i) = true
    /\ warnActive (dog i) = false
    /\ clearIntervalCalls (dog i) = 1%nat
    /\ (forall r, guardedState w i = Rejected r -> derived (dog i) = Rejected r)
    /\ (forall v, guardedState w i = Fulfilled v -> isPromise v = false ->
                  derived (dog i) = Fulfilled v)
  else
    warnActive (dog i) = true
    /\ clearIntervalCalls (dog i) = 0%nat
    /\ derived (dog i) = Pending.

(** What holds between two tasks, when every promise job has run. *)
Definition quiescent (w : world) (i : invocation) : Prop :=
  armed w i
  /\ follow w (own i) = own i
  /\ follow w (derived (dog i)) = derived (dog i)
  /\ (reacted (dog i) = false -> isSettled (guardedState w i) = false).

(** ** Sample plugins *)

Definition sampleFile : File :=
  {| file_path := "app/main.coffee"; file_data := VString "x = 1" |}.

Definition pluginWith (fn : hook) : plugin :=
  {| constructor_name := "CoffeeCompiler";
     member := fun method => if String.eqb method "compile" then Some fn else None |}.

(** [compile(file) { return 42; }]: one declared parameter, returns a value
    that is not a promise and never touches the callback. *)
Definition returns42 : hook :=
  {| fn_length := 1;
     fn_apply := fun _ => {| calls := []; completes := Return (VNumber 42) |} |}.

(** [compile(file) { throw error; }] with [error] the object 9. *)
Definition throwsError : hook :=
  {| fn_length := 1;
     fn_apply := fun _ => {| calls := []; completes := Throw (VObject 9) |} |}.

(** [compile(data, path, callback) { callback(0, 'out'); }]. *)
Definition callsBackWithZero : hook :=
  {| fn_length := 3;
     fn_apply := fun _ =>
       {| calls := [(VNumber 0, VString "out")]; completes := Return VUndefined |} |}.

(** [compile(data, path, callback) {}]: the callback is invoked later, or
    never. *)
Definition callsBackLater : hook :=
  {| fn_length := 3;
     fn_apply := fun _ => {| calls := []; completes := Return VUndefined |} |}.

(** [compile(file) { return promise; }] with [promise] the promise 5. *)
Definition returnsPromise5 : hook :=
  {| fn_length := 1;
     fn_apply := fun _ => {| calls := []; completes := Return (VThenable 5) |} |}.

Definition invocationOf (r : callResult) : invocation :=
  match r with
  | Returned i => i
  | _ => {| own := Pending; dog := safePromise OwnPromise 0 "" |}
  end.

(** ** Sample inputs *)

Definition sampleSources (stem : string) (compilationTime : Z) (n : nat)
    : list SourceFile :=
  map (fun i =>
         {| source_path := ("app/" ++ stem ++ Js.string_of_nat i ++ ".js")%string;
            compilationTime := compilationTime |})
      (seq 0 n).

(** One bundle fed by 4 sources compiled at time 120 and 145 sources compiled
    at time 50. *)
Definition sampleBundle : GeneratedFile :=
  {| oid := 1;
     generated_path := "public/app.js";
     sourceFiles := sampleSources "new" 120 4 ++ sampleSources "old" 50 145 |}.

(** The bundle of the comment on line 95: 4 sources compiled in this pass
    and 1 that was not. *)
Definition ie7Bundle : GeneratedFile :=
  {| oid := 2;
     generated_path := "public/ie7.css";
     sourceFiles := sampleSources "new" 120 4 ++ sampleSources "old" 50 1 |}.

Definition nothingDisposed : DisposedFiles :=
  {| disposed_generated := []; sourcePaths := [] |}.

(** A bundle whose only source file was removed in this pass. *)
Definition emptyBundle : GeneratedFile :=
  {| oid := 7; generated_path := "public/vendor.js"; sourceFiles := [] |}.

Definition emptyBundleDisposed : DisposedFiles :=
  {| disposed_generated := [emptyBundle]; sourcePaths := ["old.js"%string] |}.

Definition noTally : tally :=
  {| generated := []; compiled := []; cachedCount := 0 |}.

(** A stand-in for [(diff / 1000).toFixed(1)] in exact arithmetic, rounding
    half up, where [toFixed] rounds the double nearest to the quotient (for
    1150 it gives ["1.1"]); only used to run the generator on sample inputs
    whose elapsed time is below one second. *)
Definition sampleToFixed1 (diff : Z) : string :=
  (Js.string_of_Z ((diff + 50) / 1000) ++ "."
   ++ Js.string_of_Z (((diff + 50) / 100) mod 10))%string.

(** ** Further closed forms *)

(** The source files of a bundle that were not compiled in this pass. *)
Definition cachedSources (startTime : Z) (g : GeneratedFile) : list SourceFile :=
  filter (fun sf => negb (compiledNow startTime sf)) (sourceFiles g).

(** The number of [Tick] events among the events. *)
Fixpoint countTicks (evs : list event) : nat :=
  match evs with
  | [] => 0%nat
  | Tick :: rest => S (countTicks rest)
  | _ :: rest => countTicks rest
  end.

(** ** [flatten], line 9 *)

Local Set Warnings "-register-all".

(** What an array can hold as far as [concat] cares: a value that is not an
    array, or an array. *)
Inductive element (A : Type) :=
| Item (a : A)
| ArrayOf (items : list (element A)).

Arguments Item {A} a.
Arguments ArrayOf {A} items.

(** [[].concat.apply([], array)]: [concat] appends the elements of every
    argument that is an array and every other argument as it is. *)
Definition flatten {A : Type} (array : list (element A)) : list (element A) :=
  flat_map (fun x => match x with
                     | ArrayOf items => items
                     | Item _ => [x]
                     end) array.

(** ** [promiseReduce], lines 222-226 *)

(** How a promise ends up: it never settles, or it settles in some way. *)
Inductive fate :=
| Never
| Ends (o : outcome).

(** How each promise of the environment ends up. *)
Definition destiny := nat -> fate.

(** [Promise.resolve(v)], and the resolution of a promise with a value a
    handler returned: the fate of [v] when [v] is a promise, fulfilment with
    [v] otherwise. *)
Definition resolved (d : destiny) (v : value) : fate :=
  match v with
  | VThenable t => d t
  | _ => Ends (Fulfil v)
  end.

(** What [callback(item)] returns when it returns: a function, to be used as
    the fulfilment handler, or something that is not callable. *)
Inductive handler :=
| NotCallable
| Function (f : value -> completion).

(** [promise.then(h)] with no rejection handler. *)
Definition thenFate (d : destiny) (promise : fate) (h : handler) : fate :=
  match promise with
  | Ends (Fulfil v) =>
      match h with
      | Function f =>
          match f v with
          | Return x => resolved d x
          | Throw e => Ends (Reject e)
          end
      | NotCallable => promise
      end
  | _ => promise
  end.

(** How the call [callback(item)] completes. *)
Inductive applied :=
| Raises (e : value)
| Gives (h : handler).

(** What a call of [promiseReduce] does: it throws, or it returns a promise
    with some fate. *)
Inductive reduced :=
| ReduceThrew (e : value)
| ReducePromise (f : fate).

(** [array.reduce((promise, item) => promise.then(callback(item)), promise)]:
    [callback(item)] is evaluated when [reduce] visits [item], before anything
    is known about the promise built so far. *)
Fixpoint reduceFrom {A : Type} (d : destiny) (callback : A -> applied)
    (array : list A) (promise : fate) : reduced :=
  match array with
  | [] => ReducePromise promise
  | item :: rest =>
      match callback item with
      | Raises e => ReduceThrew e
      | Gives h => reduceFrom d callback rest (thenFate d promise h)
      end
  end.

Definition promiseReduce {A : Type} (d : destiny) (array : list A)
    (callback : A -> applied) (initial : value) : reduced :=
  reduceFrom d callback array (resolved d initial).

(** ** [asyncFilter], lines 66-71 *)

(** The state of a promise whose fulfilment value is not a JavaScript value
    of the model (here: an array of items). *)
Inductive settled (A : Type) :=
| StillPending
| FulfilledWith (a : A)
| RejectedWith (r : value).

Arguments StillPending {A}.
Arguments FulfilledWith {A} a.
Arguments RejectedWith {A} r.

(** The state of [Promise.all(promises)]: how each promise has settled so
    far, and the reason of the first rejection seen. *)
Record gathering :=
  { slots : list (option outcome); firstRejection : option value }.

Definition gatheringOf (n : nat) : gathering :=
  {| slots := repeat None n; firstRejection := None |}.

Fixpoint setSlot (i : nat) (o : outcome) (l : list (option outcome))
    : list (option outcome) :=
  match l, i with
  | [], _ => []
  | _ :: rest, O => Some o :: rest
  | x :: rest, S k => x :: setSlot k o rest
  end.

(** The promise of index [fst ev] settles with [snd ev]; a promise settles
    once, and the first rejection rejects the whole. *)
Definition settleSlot (g : gathering) (ev : nat * outcome) : gathering :=
  match nth_error (slots g) (fst ev) with
  | Some None =>
      {| slots := setSlot (fst ev) (snd ev) (slots g);
         firstRejection :=
           match firstRejection g, snd ev with
           | None, Reject r => Some r
           | seen, _ => seen
           end |}
  | _ => g
  end.

(** The values of the promises when all of them are fulfilled. *)
Fixpoint fulfilledValues (l : list (option outcome)) : option (list value) :=
  match l with
  | [] => Some []
  | Some (Fulfil v) :: rest =>
      match fulfilledValues rest with
      | Some vs => Some (v :: vs)
      | None => None
      end
  | _ => None
  end.

(** The promise returned by [Promise.all]. *)
Definition allSettled (g : gathering) : settled (list value) :=
  match firstRejection g with
  | Some r => RejectedWith r
  | None =>
      match fulfilledValues (slots g) with
      | Some vs => FulfilledWith vs
      | None => StillPending
      end
  end.

(** Line 69: [data.filter(x => x[1]).map(x => x[0])] on the pairs
    [[item, result]] built on line 67. *)
Definition keepTruthy {A : Type} (data : list (A * value)) : list A :=
  map fst (filter (fun x => truthy (snd x)) data).

(** Lines 66-71, with [fn] taken to return a promise for every item: the
    promise returned by [asyncFilter(arr, fn)] once the promises
    [fn(arr[i])] have settled as the events [evs] tell, in that order. *)
Definition asyncFilter {A : Type} (arr : list A) (evs : list (nat * outcome))
    : settled (list A) :=
  match allSettled (fold_left settleSlot evs (gatheringOf (List.length arr))) with
  | FulfilledWith results => FulfilledWith (keepTruthy (combine arr results))
  | RejectedWith r => RejectedWith r
  | StillPending => StillPending
  end.

(** The first settlement of the promise of index [i] among the events. *)
Fixpoint outcomeOf (evs : list (nat * outcome)) (i : nat) : option outcome :=
  match evs with
  | [] => None
  | (j, o) :: rest => if Nat.eqb j i then Some o else outcomeOf rest i
  end.

(** A rejection is on record only when some promise was rejected. *)
Definition rejectionOnRecord (g : gathering) : Prop :=
  forall r0, firstRejection g = Some r0 ->
             exists k r, nth_error (slots g) k = Some (Some (Reject r)).

(** ** Objects: [deepAssign], lines 27-45, and [deepFreeze], lines 203-212 *)

(** Primitive values other than [null] and [undefined]. *)
Inductive atom :=
| ANumber (n : Z)
| ABoolean (b : bool)
| AString (s : string).

(** JavaScript values as trees.  An object is given by its own enumerable
    properties in the order [Object.keys] lists them, by whether
    [Object.prototype.toString] classifies it as ["[object Object]"]
    ([plain]; arrays, functions and dates are not), and by whether it is
    frozen.  The tree lists own properties only: what an object inherits
    from its prototype is not part of it, and a primitive is read as having
    no property.  A plain object is taken to inherit from [Object.prototype]
    alone, and an object that is not frozen is taken to be extensible with
    writable properties.  Two occurrences of an object in a tree are two
    objects. *)
Inductive jv :=
| JUndefined
| JNull
| JAtom (a : atom)
| JObject (plain frozen : bool) (props : list (string * jv)).

(** [Object.isFrozen(v)]: a value that is not an object counts as frozen. *)
Definition isFrozen (v : jv) : bool :=
  match v with
  | JObject _ frozen _ => frozen
  | _ => true
  end.

(** [toString.call(value) === '[object Object]']. *)
Definition isPlainObject (v : jv) : bool :=
  match v with
  | JObject plain _ _ => plain
  | _ => false
  end.

(** [v == null]. *)
Definition isNullish (v : jv) : bool :=
  match v with
  | JUndefined | JNull => true
  | _ => false
  end.

(** [{}]. *)
Definition emptyObject : jv := JObject true false [].

Fixpoint lookupProp (key : string) (props : list (string * jv)) : jv :=
  match props with
  | [] => JUndefined
  | (k, v) :: rest => if String.eqb k key then v else lookupProp key rest
  end.

(** Writing a property of an object: an existing property keeps its place,
    a new one comes last.  ([Object.keys] lists a key that is an array index
    before the other keys; the order in which a new key is listed is used by
    no property below.) *)
Fixpoint storeProp (key : string) (v : jv) (props : list (string * jv))
    : list (string * jv) :=
  match props with
  | [] => [(key, v)]
  | (k, x) :: rest =>
      if String.eqb k key then (k, v) :: rest
      else (k, x) :: storeProp key v rest
  end.

(** [target[key]] as a read of own properties; [None] is the [TypeError] of
    reading a property of [null] or [undefined].  The read does not follow
    the prototype chain: it is what the code reads when [key] names nothing
    that [target] inherits (see [ordinaryMerge]). *)
Definition getProp (target : jv) (key : string) : option jv :=
  match target with
  | JUndefined | JNull => None
  | JAtom _ => Some JUndefined
  | JObject _ _ props => Some (lookupProp key props)
  end.

(** [target[key] = v] in strict mode, as a write of an own property; [None]
    is the [TypeError] thrown when [target] is frozen, a primitive, [null] or
    [undefined].  It is what the code does when [key] names no accessor that
    [target] inherits, that is when [key] is not ["__proto__"]. *)
Definition setProp (target : jv) (key : string) (v : jv) : option jv :=
  match target with
  | JObject plain false props => Some (JObject plain false (storeProp key v props))
  | _ => None
  end.

(** The object [target] after the object it holds under [key] has been
    mutated into [v]: no property of [target] is written. *)
Definition holdProp (target : jv) (key : string) (v : jv) : jv :=
  match target with
  | JObject plain frozen props => JObject plain frozen (storeProp key v props)
  | _ => target
  end.

(** The characters of a string under their indices, as [Object.keys] and
    [Object.entries] list them. *)
Fixpoint stringEntries (i : nat) (s : string) : list (string * jv) :=
  match s with
  | EmptyString => []
  | String c rest =>
      (Js.string_of_nat i, JAtom (AString (String c EmptyString)))
      :: stringEntries (S i) rest
  end.

(** The third argument of [deepAssign]: not a function ([None]), or a
    function of [target] and [source] that returns something falsy ([None])
    or the predicate to ask. *)
Definition mergeFilter : Type :=
  option (jv -> jv -> option (string -> jv -> bool)).

(** Lines 28-30. *)
Definition shouldMergeOf (filter : mergeFilter) (target source : jv)
    : string -> jv -> bool :=
  match filter with
  | Some f =>
      match f target source with
      | Some shouldMerge => shouldMerge
      | None => fun _ _ => true
      end
  | None => fun _ _ => true
  end.

(** Lines 27-45; [None] is a [TypeError].  The loop runs over the entries of
    [source]; [acc] is [target] as mutated so far. *)
Fixpoint deepAssign (target source : jv) (filter : mergeFilter) {struct source}
    : option jv :=
  let shouldMerge := shouldMergeOf filter target source in
  match source with
  | JUndefined | JNull => None
  | JAtom (AString s) =>
      fold_left
        (fun acc entry =>
           match acc with
           | None => None
           | Some target' => setProp target' (fst entry) (snd entry)
           end)
        (stringEntries 0 s) (Some target)
  | JAtom _ => Some target
  | JObject _ _ props =>
      fold_left
        (fun acc entry =>
           match acc with
           | None => None
           | Some target' =>
               match entry with
               | (key, value) =>
                   if isPlainObject value && shouldMerge key value then
                     match getProp target' key with
                     | None => None
                     | Some nested =>
                         if isNullish nested then
                           match setProp target' key emptyObject with
                           | None => None
                           | Some target'' =>
                               match deepAssign emptyObject value filter with
                               | None => None
                               | Some merged => Some (holdProp target'' key merged)
                               end
                           end
                         else
                           match deepAssign nested value filter with
                           | None => None
                           | Some merged => Some (holdProp target' key merged)
                           end
                     end
                   else setProp target' key value
               end
           end)
        props (Some target)
  end.

(** Whether [key] is listed in [except]; [except] is [None] when the
    argument is missing. *)
Definition excepted (except : option (list string)) (key : string) : bool :=
  match except with
  | Some keys => Js.includes key keys
  | None => false
  end.

(** Lines 204-210 on an object: the object is frozen, and so is, in the
    same way, every value it holds that is not under an excepted key and not
    frozen already. *)
Fixpoint freezeObjects (except : option (list string)) (object : jv) : jv :=
  match object with
  | JObject plain _ props =>
      JObject plain true
        (map (fun entry =>
                match entry with
                | (key, v) =>
                    if excepted except key then entry
                    else if isFrozen v then entry
                    else (key, freezeObjects except v)
                end) props)
  | _ => object
  end.

(** Lines 203-212; [None] is the [TypeError] of [Object.entries(null)].
    Objects that [Object.freeze] refuses to freeze (a typed array that has
    elements) are not among the trees: on them the code throws. *)
Definition deepFreeze (object : jv) (except : option (list string)) : option jv :=
  match object with
  | JUndefined | JNull => None
  | _ => Some (freezeObjects except object)
  end.

(** Every object of the tree is frozen. *)
Fixpoint deeplyFrozen (v : jv) : bool :=
  match v with
  | JObject _ frozen props =>
      frozen && forallb (fun entry => deeplyFrozen (snd entry)) props
  | _ => true
  end.

(** Every frozen object strictly inside the tree is deeply frozen. *)
Fixpoint frozenMeansDeep (v : jv) : bool :=
  match v with
  | JObject _ _ props =>
      forallb (fun entry =>
                 (if isFrozen (snd entry) then deeplyFrozen (snd entry) else true)
                 && frozenMeansDeep (snd entry)) props
  | _ => true
  end.

(** The tree with every object thawed: what the tree holds, without the
    frozen marks. *)
Fixpoint thawed (v : jv) : jv :=
  match v with
  | JObject plain _ props =>
      JObject plain false (map (fun entry => (fst entry, thawed (snd entry))) props)
  | _ => v
  end.

(** The size of a tree, for inductions. *)
Fixpoint jvSize (v : jv) : nat :=
  match v with
  | JObject _ _ props =>
      S (list_sum (map (fun entry => jvSize (snd entry)) props))
  | _ => 1%nat
  end.

(** The keys of the properties of an object. *)
Definition keysOf (props : list (string * jv)) : list string := map fst props.

(** Sample objects. *)
Definition sampleConfig : jv :=
  JObject true false
    [("paths"%string, JObject true false
        [("public"%string, JAtom (AString "public"));
         ("watched"%string, JObject false false
            [("0"%string, JAtom (AString "app"))])]);
     ("sourceMaps"%string, JAtom (ABoolean true))].

Definition sampleOverride : jv :=
  JObject true false
    [("paths"%string, JObject true false
        [("public"%string, JAtom (AString "dist"))]);
     ("optimize"%string, JAtom (ABoolean true))].

(** The body of the loop of lines 32-42, as [deepAssign] runs it. *)
Definition assignEntry (filter : mergeFilter) (shouldMerge : string -> jv -> bool)
    (acc : option jv) (entry : string * jv) : option jv :=
  match acc with
  | None => None
  | Some target' =>
      match entry with
      | (key, value) =>
          if isPlainObject value && shouldMerge key value then
            match getProp target' key with
            | None => None
            | Some nested =>
                if isNullish nested then
                  match setProp target' key emptyObject with
                  | None => None
                  | Some target'' =>
                      match deepAssign emptyObject value filter with
                      | None => None
                      | Some merged => Some (holdProp target'' key merged)
                      end
                  end
                else
                  match deepAssign nested value filter with
                  | None => None
                  | Some merged => Some (holdProp target' key merged)
                  end
            end
          else setProp target' key value
      end
  end.

(** The value [deepAssign] merges a plain source value into: what the target
    holds under the key, or a fresh object when that is [null] or
    [undefined]. *)
Definition mergeBase (held : jv) : jv :=
  if isNullish held then emptyObject else held.


(** [typeof v === 'object' || typeof v === 'function'], [null] apart. *)
Definition isObject (v : jv) : bool :=
  match v with
  | JObject _ _ _ => true
  | _ => false
  end.

(** The own enumerable properties of an object. *)
Definition propsOf (v : jv) : list (string * jv) :=
  match v with
  | JObject _ _ props => props
  | _ => []
  end.

(** [sampleConfig] with [sampleOverride] merged into it. *)
Definition sampleMerged : jv :=
  JObject true false
    [("paths"%string, JObject true false
        [("public"%string, JAtom (AString "dist"));
         ("watched"%string, JObject false false
            [("0"%string, JAtom (AString "app"))])]);
     ("sourceMaps"%string, JAtom (ABoolean true));
     ("optimize"%string, JAtom (ABoolean true))].

(** The names that every object inherits from [Object.prototype]: under
    one of them [target[key]] reads what is inherited when the object has no
    such property of its own, and [target['__proto__'] = v] runs an accessor
    instead of storing a property. *)
Definition objectPrototypeNames : list string :=
  ["__proto__"; "constructor"; "hasOwnProperty"; "isPrototypeOf";
   "propertyIsEnumerable"; "toLocaleString"; "toString"; "valueOf";
   "__defineGetter__"; "__defineSetter__"; "__lookupGetter__";
   "__lookupSetter__"]%string.

(** The calls of [deepAssign] on which [getProp] and [setProp] are what
    lines 36, 37 and 40 do: every object that is assigned into is a plain
    object, which inherits from [Object.prototype] alone, and no key that is
    read or written names a property of [Object.prototype].  The objects
    assigned into are [target] and, for every source value that is merged,
    what [target] holds under its key, or the fresh object of line 37. *)
Fixpoint ordinaryMerge (filter : mergeFilter) (target source : jv) {struct source}
    : bool :=
  match source with
  | JObject _ _ props =>
      isPlainObject target
      && forallb
           (fun entry =>
              negb (Js.includes (fst entry) objectPrototypeNames)
              && (if isPlainObject (snd entry)
                     && shouldMergeOf filter target source (fst entry) (snd entry)
                  then ordinaryMerge filter
                         (mergeBase (lookupProp (fst entry) (propsOf target)))
                         (snd entry)
                  else true))
           props
  | JAtom (AString _) => isPlainObject target
  | _ => true
  end.

(** * Properties *)

Example posixBasename_sample :
  posixBasename "public/js/app.js" = "app.js"%string.
Proof. reflexivity. Qed.

(** ** The summary generator *)

Lemma includes_In name acc : Js.includes name acc = true <-> In name acc.
Proof.
  unfold Js.includes. rewrite existsb_exists. split.
  - intros (x & Hx & Heq). apply String.eqb_eq in Heq. now subst.
  - intros Hin. exists name. split; [assumption | apply String.eqb_refl].
Qed.



Lemma fold_pushUnique_fresh names : forall acc,
  NoDup names -> (forall x, In x names -> ~ In x acc) ->
  fold_left pushUnique names acc = acc ++ names.
Proof.
  induction names as [|n names IH]; intros acc Hnd Hfresh; cbn [fold_left].
  - now rewrite app_nil_r.
  - inversion Hnd as [|? ? Hn Hnd']; subst.
    unfold pushUnique at 2.
    destruct (Js.includes n acc) eqn:E.
    + apply includes_In in E. exfalso. apply (Hfresh n); [now left | exact E].
    + rewrite IH; [now rewrite <- app_assoc | assumption |].
      intros x Hx Hin. apply in_app_iff in Hin as [Hin | [<- | []]].
      * apply (Hfresh x); [now right | exact Hin].
      * contradiction.
Qed.

Section SummaryFacts.

Variable basename : string -> string.
Variable toFixed1 : Z -> string.

Lemma visitSource_count startTime dgen g s sf :
  locallyCompiledCount (visitSource basename startTime dgen g s sf) =
  locallyCompiledCount s + (if compiledNow startTime sf then 1 else 0).
Proof.
  unfold visitSource, compiledNow. destruct s as [changed count names].
  destruct (startTime <=? compilationTime sf), changed,
    (includesObject g dgen); cbn; lia.
Qed.

Lemma visitSource_compiled startTime dgen g s sf :
  scan_compiled (visitSource basename startTime dgen g s sf) =
  if compiledNow startTime sf
  then pushUnique (scan_compiled s) (getName basename sf)
  else scan_compiled s.
Proof.
  unfold visitSource, compiledNow, pushUnique. destruct s as [changed count names].
  destruct (startTime <=? compilationTime sf), changed,
    (includesObject g dgen); reflexivity.
Qed.

Lemma visitSource_changed startTime dgen g s sf :
  isChanged (visitSource basename startTime dgen g s sf) =
  isChanged s || compiledNow startTime sf || includesObject g dgen.
Proof.
  unfold visitSource, compiledNow. destruct s as [changed count names].
  destruct (startTime <=? compilationTime sf), changed,
    (includesObject g dgen); reflexivity.
Qed.

Lemma scan_fold_count startTime dgen g l : forall s,
  locallyCompiledCount (fold_left (visitSource basename startTime dgen g) l s) =
  locallyCompiledCount s
  + Z.of_nat (List.length (filter (compiledNow startTime) l)).
Proof.
  induction l as [|sf l IH]; intros s; cbn [fold_left filter].
  - cbn. lia.
  - rewrite IH, visitSource_count.
    destruct (compiledNow startTime sf); cbn [List.length]; lia.
Qed.

Lemma scan_fold_compiled startTime dgen g l : forall s,
  scan_compiled (fold_left (visitSource basename startTime dgen g) l s) =
  fold_left pushUnique
    (map (getName basename) (filter (compiledNow startTime) l)) (scan_compiled s).
Proof.
  induction l as [|sf l IH]; intros s; cbn [fold_left filter map].
  - reflexivity.
  - rewrite IH, visitSource_compiled.
    destruct (compiledNow startTime sf); reflexivity.
Qed.

Lemma scan_fold_changed startTime dgen g l : forall s,
  isChanged (fold_left (visitSource basename startTime dgen g) l s) =
  isChanged s
  || existsb (compiledNow startTime) l
  || (negb (Nat.eqb (List.length l) 0) && includesObject g dgen).
Proof.
  induction l as [|sf l IH]; intros s; cbn [fold_left existsb List.length].
  - cbn. now rewrite !orb_false_r.
  - rewrite IH, visitSource_changed. cbn [Nat.eqb negb andb].
    destruct (isChanged s), (compiledNow startTime sf),
      (includesObject g dgen), (existsb (compiledNow startTime) l),
      (Nat.eqb (List.length l) 0); reflexivity.
Qed.

(** The body of the outer loop in closed form. *)
Lemma visitGenerated_eq startTime dgen t g :
  visitGenerated basename startTime dgen t g =
  let hits := filter (compiledNow startTime) (sourceFiles g) in
  let compiled' := fold_left pushUnique (map (getName basename) hits) (compiled t) in
  if changedThisPass startTime dgen g then
    {| generated := generated t ++ [getName basename g];
       compiled := compiled';
       cachedCount :=
         cachedCount t
         + (Z.of_nat (List.length (sourceFiles g)) - Z.of_nat (List.length hits)) |}
  else
    {| generated := generated t; compiled := compiled'; cachedCount := cachedCount t |}.
Proof.
  unfold visitGenerated, scanSources, changedThisPass.
  rewrite scan_fold_changed, scan_fold_count, scan_fold_compiled.
  reflexivity.
Qed.

(** When the bundle has a source file, the code's test is the rule of the
    data model. *)
Lemma changedThisPass_with_sources startTime dgen g :
  sourceFiles g <> [] ->
  changedThisPass startTime dgen g = true <->
  (exists sf, In sf (sourceFiles g) /\ startTime <= compilationTime sf)
  \/ includesObject g dgen = true.
Proof.
  intros Hne. unfold changedThisPass.
  rewrite orb_true_iff, andb_true_iff, existsb_exists.
  destruct (sourceFiles g) as [|sf0 l]; [congruence |]. cbn [List.length Nat.eqb negb].
  unfold compiledNow. split.
  - intros [(sf & Hin & Hle) | [_ Hd]]; [left | now right].
    exists sf. split; [assumption | now apply Z.leb_le].
  - intros [(sf & Hin & Hle) | Hd]; [left | now right].
    exists sf. split; [assumption | now apply Z.leb_le].
Qed.

End SummaryFacts.

Lemma filter_nil_of_existsb_false {A : Type} (f : A -> bool) (l : list A) :
  existsb f l = false -> filter f l = [].
Proof.
  induction l as [|a l IH]; cbn; [reflexivity |].
  destruct (f a); cbn; [discriminate | exact IH].
Qed.

(** A bundle with at least one source file is classified by the rule of the
    data model, and contributes as the summary generator describes. *)
Lemma visitGenerated_with_sources basename startTime dgen t g :
  sourceFiles g <> [] ->
  let t' := visitGenerated basename startTime dgen t g in
  let hits := filter (compiledNow startTime) (sourceFiles g) in
  ((exists sf, In sf (sourceFiles g) /\ startTime <= compilationTime sf)
   \/ includesObject g dgen = true ->
   generated t' = generated t ++ [getName basename g]
   /\ cachedCount t' =
      cachedCount t
      + (Z.of_nat (List.length (sourceFiles g)) - Z.of_nat (List.length hits)))
  /\ (~ ((exists sf, In sf (sourceFiles g) /\ startTime <= compilationTime sf)
         \/ includesObject g dgen = true) ->
      t' = t).
Proof.
  intros Hne t' hits. subst t'. rewrite visitGenerated_eq. cbv zeta.
  pose proof (changedThisPass_with_sources startTime dgen g Hne) as Hrule.
  destruct (changedThisPass startTime dgen g) eqn:E; split.
  - intros _. split; reflexivity.
  - intros Hno. exfalso. apply Hno. now apply Hrule.
  - intros Hyes. apply Hrule in Hyes. discriminate.
  - intros _. unfold changedThisPass in E. apply orb_false_iff in E as [E _].
    rewrite (filter_nil_of_existsb_false _ _ E). destruct t; reflexivity.
Qed.

(** C1 (the code departs from the rule).  A generated file that is listed in
    [disposed.generated] but has no source files is not classified as
    changed: the membership test sits inside the loop over the source files,
    which does not run, so the file contributes nothing to [generated],
    [compiled] or [cachedCount]. *)
Theorem C1_disposed_bundle_without_sources_is_skipped
    basename startTime dgen t g :
  sourceFiles g = [] ->
  includesObject g dgen = true ->
  changedThisPass startTime dgen g = false
  /\ visitGenerated basename startTime dgen t g = t.
Proof.
  intros Hnil Hin. split.
  - unfold changedThisPass. now rewrite Hnil.
  - rewrite visitGenerated_eq. cbv zeta. unfold changedThisPass.
    rewrite Hnil. cbn. destruct t; reflexivity.
Qed.

Lemma C1_disposed_bundle_without_sources_witness :
  includesObject emptyBundle (disposed_generated emptyBundleDisposed) = true
  /\ classify posixBasename 100 [emptyBundle] emptyBundleDisposed = noTally.
Proof.
  split; [reflexivity |].
  unfold classify. cbn [fold_left].
  apply (C1_disposed_bundle_without_sources_is_skipped
           posixBasename 100 (disposed_generated emptyBundleDisposed)
           noTally emptyBundle); reflexivity.
Defined.



Lemma append_empty_r (s : string) : (s ++ "")%string = s.
Proof. induction s as [|c s IH]; cbn; [reflexivity | now rewrite IH]. Qed.

Lemma append_assoc (a b c : string) :
  ((a ++ b) ++ c)%string = (a ++ (b ++ c))%string.
Proof. induction a as [|x a IH]; cbn; [reflexivity | now rewrite IH]. Qed.

Lemma existsb_of_filter_length {A : Type} (f : A -> bool) (l : list A) :
  (0 < List.length (filter f l))%nat -> existsb f l = true.
Proof.
  induction l as [|a l IH]; cbn; [lia |].
  destruct (f a); cbn; [reflexivity | exact IH].
Qed.

Lemma copiedNames_none basename startTime allAssets :
  (forall a, In a allAssets -> copyTime a <= startTime) ->
  copiedNames basename startTime allAssets = [].
Proof.
  intros Hold. unfold copiedNames.
  induction allAssets as [|a l IH]; cbn [filter map]; [reflexivity |].
  assert (Ha : (startTime <? copyTime a) = false).
  { apply Z.ltb_ge. apply Hold. now left. }
  rewrite Ha. apply IH. intros b Hb. apply Hold. now right.
Qed.

(** C5, as the code renders it.  One generated file fed by 4 source files
    compiled in this pass (with distinct base names) and 145 that were not,
    no asset copied and nothing removed: the text before the elapsed time is
    ["compiled 4 files and 145 cached into <bundle>"]. *)
Theorem C5_four_compiled_145_cached
    basename toFixed1 now startTime allAssets g :
  (forall a, In a allAssets -> copyTime a <= startTime) ->
  List.length (filter (compiledNow startTime) (sourceFiles g)) = 4%nat ->
  NoDup (map (getName basename) (filter (compiledNow startTime) (sourceFiles g))) ->
  List.length
    (filter (fun sf => negb (compiledNow startTime sf)) (sourceFiles g)) = 145%nat ->
  generateCompilationLog basename toFixed1 now startTime allAssets [g] nothingDisposed
  = ("compiled 4 files and 145 cached into " ++ basename (generated_path g)
     ++ " in " ++ diffText toFixed1 (now - startTime))%string.
Proof.
  intros Hassets Hhits Hnodup Hrest.
  pose proof (filter_length (compiledNow startTime) (sourceFiles g)) as Hlen.
  rewrite Hhits, Hrest in Hlen.
  assert (Hchanged : changedThisPass startTime [] g = true).
  { unfold changedThisPass. rewrite existsb_of_filter_length by lia. reflexivity. }
  unfold generateCompilationLog, headline, mainLog.
  rewrite (copiedNames_none _ _ _ Hassets).
  unfold classify. cbn [fold_left nothingDisposed disposed_generated sourcePaths].
  rewrite visitGenerated_eq. cbv zeta. rewrite Hchanged.
  cbn [generated compiled cachedCount app].
  rewrite fold_pushUnique_fresh by (assumption || (intros x _ [])).
  cbn [app]. rewrite Hhits, <- Hlen.
  unfold compiledLog, cachedLog, generatedLog, assetsLog.
  rewrite length_map, Hhits.
  cbn. rewrite append_empty_r. reflexivity.
Qed.

Lemma C5_four_compiled_145_cached_witness :
  generateCompilationLog posixBasename sampleToFixed1 150 100 []
    [sampleBundle] nothingDisposed
  = "compiled 4 files and 145 cached into app.js in 50 ms"%string.
Proof.
  apply (C5_four_compiled_145_cached
           posixBasename sampleToFixed1 150 100 [] sampleBundle).
  - intros a [].
  - reflexivity.
  - vm_compute. repeat constructor; cbn; intuition discriminate.
  - reflexivity.
Defined.

(** C5, counterexample.  On a bundle that meets the scenario the text before
    the elapsed time is not ["compiled 4 and 145 cached into app.js"]: the
    code inserts [" files"] after the count of compiled files. *)
Lemma C5_counterexample :
  List.length (filter (compiledNow 100) (sourceFiles sampleBundle)) = 4%nat
  /\ List.length
       (filter (fun sf => negb (compiledNow 100 sf)) (sourceFiles sampleBundle))
     = 145%nat
  /\ headline posixBasename 100 [] [sampleBundle] nothingDisposed
     = "compiled 4 files and 145 cached into app.js"%string
  /\ headline posixBasename 100 [] [sampleBundle] nothingDisposed
     <> "compiled 4 and 145 cached into app.js"%string.
Proof.
  repeat split; try reflexivity.
  vm_compute. discriminate.
Qed.

(** The example of line 95 of the source, reproduced by the code. *)
Example comment_line_95 :
  headline posixBasename 100 [] [ie7Bundle] nothingDisposed
  = "compiled 4 files and 1 cached into ie7.css"%string.
Proof. reflexivity. Qed.

(** C9.  The text before [" in "] is a function of [startTime], the assets,
    the generated files and the disposed files alone: one and the same text
    [main] heads the output whatever the clock reads and however the elapsed
    time is rendered, and two calls that read the same clock return the same
    string. *)
Theorem C9_headline_depends_on_inputs_only
    basename startTime allAssets generatedFiles disposedFiles :
  exists main : string,
    forall (toFixed1 : Z -> string) (now : Z),
      generateCompilationLog basename toFixed1 now startTime
        allAssets generatedFiles disposedFiles
      = (main ++ " in " ++ diffText toFixed1 (now - startTime))%string.
Proof.
  exists (headline basename startTime allAssets generatedFiles disposedFiles).
  intros toFixed1 now. reflexivity.
Qed.

(** ** The progress animator *)

Lemma fire_iter timePassed n :
  iterations (Nat.iter n fire (getCompilationProgress timePassed)) = n
  /\ scheduled (Nat.iter n fire (getCompilationProgress timePassed)) <> None
  /\ emitted (Nat.iter n fire (getCompilationProgress timePassed))
     = map lineAt (seq 0 n).
Proof.
  induction n as [|n IH].
  - cbn. repeat split. discriminate.
  - rewrite Nat.iter_succ.
    set (a := Nat.iter n fire (getCompilationProgress timePassed)) in *.
    destruct IH as (Hit & Hsched & Hout).
    unfold fire. destruct (scheduled a) as [delay|]; [| congruence].
    unfold writeWithDots. cbn [iterations scheduled emitted].
    rewrite Hit, Hout. repeat split; [discriminate |].
    rewrite seq_S, map_app. reflexivity.
Qed.

Lemma slice0_dots k : (k < 4)%nat -> Js.slice0 "..." k = dots k.
Proof.
  intros Hk. destruct k as [|[|[|[|k]]]]; try reflexivity. lia.
Qed.

(** C4, as the code behaves.  The tick of index [i] emits
    ["still compiling"] only for [i = 7] and ["compiling"] for every other
    index, followed by [i mod 4] dots. *)
Theorem C4_still_compiling_only_at_tick_7 (timePassed : option Z) (i : nat) :
  tickLine timePassed i =
  Some ((if Nat.eqb i 7 then "still compiling" else "compiling")
        ++ dots (i mod 4))%string.
Proof.
  unfold tickLine.
  destruct (fire_iter timePassed (S i)) as (_ & _ & Hout). rewrite Hout.
  rewrite nth_error_map, nth_error_seq.
  replace (i <? S i)%nat with true by (symmetry; apply Nat.ltb_lt; lia).
  cbn [option_map Nat.add]. unfold lineAt.
  rewrite slice0_dots by (apply Nat.mod_upper_bound; discriminate).
  reflexivity.
Qed.

(** C4, counterexample.  The tick of index 8 emits ["compiling"], not
    ["still compiling"]: the switch at tick 7 is not permanent. *)
Lemma C4_counterexample :
  tickLine None 8 = Some "compiling"%string
  /\ tickLine None 8 <> Some ("still compiling" ++ dots (8 mod 4))%string.
Proof.
  split; [reflexivity | vm_compute; discriminate].
Qed.

(** After the returned function has been called no tick fires any more. *)
Lemma fire_after_cancel (a : animator) : fire (cancel a) = cancel a.
Proof. reflexivity. Qed.

(** ** Promises *)

Lemma isPromise_false_resolve v :
  isPromise v = false -> resolve Pending v = Fulfilled v.
Proof. destruct v; cbn; intros H; (reflexivity || discriminate). Qed.

Lemma follow_settled w p : isSettled p = true -> follow w p = p.
Proof. destruct p; cbn; intros H; (reflexivity || discriminate). Qed.

Lemma follow_idempotent w p : follow w (follow w p) = follow w p.
Proof.
  destruct p as [|t|v|r]; cbn; try reflexivity.
  destruct (w t) as [o|] eqn:E; [destruct o; reflexivity |].
  cbn. now rewrite E.
Qed.

Lemma settle_keeps w t o t' o' :
  w t' = Some o' -> settle w t o t' = Some o'.
Proof.
  intros H. unfold settle. destruct (Nat.eqb t' t) eqn:E; [| exact H].
  apply Nat.eqb_eq in E. subst t'. now rewrite H.
Qed.

(** The completion callback acts on a pending promise only, and always takes
    it out of the pending state. *)
Lemma completionCallback_resolved p error data :
  p <> Pending -> completionCallback p error data = p.
Proof.
  intros H. unfold completionCallback, reject, resolve.
  destruct (truthy error), p; congruence.
Qed.

Lemma completionCallback_not_pending p error data :
  completionCallback p error data <> Pending.
Proof.
  unfold completionCallback, reject, resolve.
  destruct (truthy error), p; try discriminate; destruct data; discriminate.
Qed.


Lemma fold_applyCall_resolved cs : forall p,
  p <> Pending -> fold_left applyCall cs p = p.
Proof.
  induction cs as [|c cs IH]; intros p Hp; cbn [fold_left]; [reflexivity |].
  unfold applyCall at 2. rewrite completionCallback_resolved by exact Hp.
  now apply IH.
Qed.

Lemma fold_applyCall_first c cs :
  fold_left applyCall (c :: cs) Pending = applyCall Pending c.
Proof.
  cbn [fold_left]. apply fold_applyCall_resolved.
  apply completionCallback_not_pending.
Qed.

(** ** The watchdog invariant *)

Lemma guarded_react w i : guarded (dog (react w i)) = guarded (dog i).
Proof.
  unfold react, followDerived, thenReaction. cbn [dog guarded].
  destruct (reacted (dog i)); [reflexivity |].
  destruct (operationState w (follow w (own i)) (guarded (dog i)));
    reflexivity.
Qed.

Lemma own_react w i : own (react w i) = follow w (own i).
Proof. reflexivity. Qed.

(** Running the promise jobs from an armed state gives a quiescent one. *)
Lemma react_quiescent w i : armed w i -> quiescent w (react w i).
Proof.
  destruct i as [p [op iv msg act n ws re der]].
  unfold quiescent, armed, guardedState, react, thenReaction, followDerived.
  cbn [own dog guarded reacted warnActive clearIntervalCalls derived].
  destruct re.
  - intros (Hset & Hact & Hn & Hrej & Hful).
    cbn [own dog guarded reacted warnActive clearIntervalCalls derived].
    assert (Hown : operationState w (follow w p) op = operationState w p op).
    { destruct op; cbn; [| reflexivity].
      cbn in Hset. now rewrite follow_settled. }
    rewrite Hown. repeat split; try assumption.
    + intros r Hr. rewrite (Hrej r Hr). reflexivity.
    + intros v Hv Hp. rewrite (Hful v Hv Hp). reflexivity.
    + apply follow_idempotent.
    + apply follow_idempotent.
    + discriminate.
  - intros (Hact & Hn & Hder). subst act n der.
    destruct (operationState w (follow w p) op) as [|t|v|r] eqn:Hst;
      cbn [settleDerived onFulfilled onRejected clearInterval
           own dog guarded reacted warnActive clearIntervalCalls derived
           fst snd];
      rewrite ?Hst; repeat split;
      try reflexivity; try discriminate;
      try apply follow_idempotent.
    + intros v' Hv' Hp. injection Hv' as <-.
      rewrite isPromise_false_resolve by exact Hp. reflexivity.
    + intros r' Hr'. injection Hr' as <-. reflexivity.
Qed.

Lemma settled_not_pending p : isSettled p = true -> p <> Pending.
Proof. destruct p; cbn; congruence. Qed.

Lemma armed_tick w i :
  quiescent w i -> armed w {| own := own i; dog := tick (dog i) |}.
Proof.
  intros (Harmed & _). revert Harmed.
  destruct i as [p [op iv msg act n ws re der]].
  unfold armed, guardedState, tick.
  cbn [own dog guarded reacted warnActive clearIntervalCalls derived].
  destruct act; cbn [own dog guarded reacted warnActive clearIntervalCalls derived];
    trivial.
Qed.

Lemma armed_callback w i error data :
  quiescent w i ->
  armed w {| own := completionCallback (own i) error data; dog := dog i |}.
Proof.
  intros (Harmed & _). revert Harmed.
  destruct i as [p g]. unfold armed, guardedState. cbn [own dog].
  destruct (reacted g); [| trivial].
  intros (Hset & Hrest).
  assert (Hsame : operationState w (completionCallback p error data) (guarded g)
                  = operationState w p (guarded g)).
  { destruct (guarded g); cbn; [| reflexivity].
    apply completionCallback_resolved, settled_not_pending. exact Hset. }
  rewrite Hsame. split; assumption.
Qed.

Lemma operationState_settle w t o p op :
  isSettled (operationState w p op) = true ->
  operationState (settle w t o) p op = operationState w p op.
Proof.
  destruct op as [|t0]; cbn; [reflexivity |].
  destruct (w t0) as [o0|] eqn:E; [| discriminate].
  intros _. now rewrite (settle_keeps w t o t0 o0 E).
Qed.

Lemma armed_settle w i t o : quiescent w i -> armed (settle w t o) i.
Proof.
  intros (Harmed & _). revert Harmed. unfold armed, guardedState.
  destruct (reacted (dog i)); [| trivial].
  intros (Hset & Hrest). rewrite operationState_settle by exact Hset.
  split; assumption.
Qed.

Lemma step_quiescent w i ev :
  quiescent w i -> quiescent (fst (step (w, i) ev)) (snd (step (w, i) ev)).
Proof.
  intros Hq. destruct ev as [|error data|t o]; cbn [step fst snd];
    apply react_quiescent.
  - now apply armed_tick.
  - now apply armed_callback.
  - now apply armed_settle.
Qed.

Lemma fold_quiescent evs : forall w i,
  quiescent w i ->
  quiescent (fst (fold_left step evs (w, i))) (snd (fold_left step evs (w, i))).
Proof.
  induction evs as [|ev evs IH]; intros w i Hq; cbn [fold_left]; [exact Hq |].
  destruct (step (w, i) ev) as [w' i'] eqn:E.
  apply IH. pose proof (step_quiescent w i ev Hq) as H.
  now rewrite E in H.
Qed.

Lemma run_quiescent w i evs :
  armed w i -> quiescent (finalWorld w i evs) (finalState w i evs).
Proof.
  intros Ha. unfold finalWorld, finalState, run.
  apply fold_quiescent, react_quiescent, Ha.
Qed.

Lemma safePromise_armed w p op iv msg :
  armed w {| own := p; dog := safePromise op iv msg |}.
Proof. unfold armed. cbn. repeat split. Qed.

Lemma guarded_step w i ev :
  guarded (dog (snd (step (w, i) ev))) = guarded (dog i).
Proof.
  destruct ev; cbn [step snd]; rewrite guarded_react; [| reflexivity..].
  cbn [dog]. unfold tick. destruct (warnActive (dog i)); reflexivity.
Qed.

Lemma guarded_fold evs : forall w i,
  guarded (dog (snd (fold_left step evs (w, i)))) = guarded (dog i).
Proof.
  induction evs as [|ev evs IH]; intros w i; cbn [fold_left]; [reflexivity |].
  destruct (step (w, i) ev) as [w' i'] eqn:E. rewrite IH.
  pose proof (guarded_step w i ev) as H. now rewrite E in H.
Qed.

Lemma guarded_run w i evs : guarded (dog (finalState w i evs)) = guarded (dog i).
Proof.
  unfold finalState, run. now rewrite guarded_fold, guarded_react.
Qed.

(** Once the interval is cleared nothing is logged any more. *)
Lemma cleared_step w i ev :
  warnActive (dog i) = false ->
  warnActive (dog (snd (step (w, i) ev))) = false
  /\ warnings (dog (snd (step (w, i) ev))) = warnings (dog i).
Proof.
  intros Hoff. destruct i as [p [op iv msg act n ws re der]].
  cbn in Hoff. subst act.
  destruct ev as [|error data|t o]; cbn [step snd];
    unfold react, followDerived, thenReaction, tick;
    cbn [own dog guarded reacted warnActive warnings];
    destruct re; cbn [warnActive warnings]; try (split; reflexivity);
    match goal with
    | |- context [operationState ?w ?p ?op] =>
        destruct (operationState w p op); split; reflexivity
    end.
Qed.

Lemma cleared_fold evs : forall w i,
  warnActive (dog i) = false ->
  warnings (dog (snd (fold_left step evs (w, i)))) = warnings (dog i).
Proof.
  induction evs as [|ev evs IH]; intros w i Hoff; cbn [fold_left]; [reflexivity |].
  destruct (step (w, i) ev) as [w' i'] eqn:E.
  pose proof (cleared_step w i ev Hoff) as [Hoff' Hsame].
  rewrite E in Hoff', Hsame. cbn [snd] in Hoff', Hsame.
  now rewrite IH.
Qed.

Lemma run_app w i evs1 evs2 :
  run w i (evs1 ++ evs2) = fold_left step evs2 (run w i evs1).
Proof. unfold run. apply fold_left_app. Qed.

(** C7.  Whatever promise [safePromise] guards and whatever happens
    afterwards, the promise it returns carries the outcome of the guarded
    promise unchanged: fulfilled with the same value, rejected with the same
    reason, pending while the guarded promise is pending.  The interval is
    live while the guarded promise is pending, [clearInterval] has been
    called exactly once as soon as it has settled, and from then on no
    further warning is logged. *)
Theorem C7_watchdog_forwards_outcome
    (promise : operation) (interval : Z) (message : string)
    (p0 : pstate) (w : world) (evs : list event) :
  let i0 := {| own := p0; dog := safePromise promise interval message |} in
  let st :=
    operationState (finalWorld w i0 evs) (own (finalState w i0 evs)) promise in
  let g := dog (finalState w i0 evs) in
  (forall v, st = Fulfilled v -> isPromise v = false -> derived g = Fulfilled v)
  /\ (forall r, st = Rejected r -> derived g = Rejected r)
  /\ (isSettled st = false ->
      derived g = Pending /\ warnActive g = true
      /\ clearIntervalCalls g = 0%nat)
  /\ (isSettled st = true ->
      warnActive g = false /\ clearIntervalCalls g = 1%nat
      /\ forall later,
           warnings (dog (finalState w i0 (evs ++ later))) = warnings g).
Proof.
  intros i0 st g.
  pose proof (run_quiescent w i0 evs (safePromise_armed w p0 _ _ _)) as Hq.
  destruct Hq as (Harmed & _ & _ & Hidle).
  unfold guardedState in Harmed, Hidle. unfold armed, guardedState in Harmed.
  rewrite (guarded_run w i0 evs) in Harmed, Hidle.
  cbn [i0 dog guarded safePromise] in Harmed, Hidle.
  fold st g in Harmed, Hidle.
  destruct (reacted g) eqn:Hre.
  - destruct Harmed as (Hset & Hoff & Hn & Hrej & Hful).
    repeat split; try assumption; try congruence.
    intros later. unfold g, finalState in Hoff |- *. rewrite run_app.
    destruct (run w i0 evs) as [w' i']. cbn [snd] in Hoff |- *.
    now apply cleared_fold.
  - destruct Harmed as (Hon & Hn & Hder). specialize (Hidle eq_refl).
    repeat split; try assumption; try congruence.
    + intros v Hv. rewrite Hv in Hidle. discriminate.
    + intros r Hr. rewrite Hr in Hidle. discriminate.
Qed.

Lemma C7_watchdog_forwards_outcome_witness :
  derived
    (dog (finalState nothingSettled
            {| own := Pending; dog := safePromise (Thenable 5) 15000 "slow" |}
            [Tick; Settles 5 (Fulfil (VString "js")); Tick]))
  = Fulfilled (VString "js").
Proof.
  apply (proj1 (C7_watchdog_forwards_outcome
                  (Thenable 5) 15000 "slow" Pending nothingSettled
                  [Tick; Settles 5 (Fulfil (VString "js")); Tick])
           (VString "js")); reflexivity.
Defined.

(** A promise that settles after two intervals: two warnings before, none
    after. *)
Example warnings_stop_at_settlement :
  warnings
    (dog (finalState nothingSettled
            {| own := Pending; dog := safePromise (Thenable 5) 15000 "slow" |}
            [Tick; Tick; Settles 5 (Fulfil (VString "js")); Tick; Tick]))
  = ["slow"%string; "slow"%string].
Proof. reflexivity. Qed.

(** ** The promise built by [callPlugin] *)

Lemma follow_not_pending w p : p <> Pending -> follow w p <> Pending.
Proof.
  destruct p as [|t|v|r]; cbn; try congruence.
  intros _. destruct (w t) as [[v|r]|]; discriminate.
Qed.

Lemma own_step_settled w i ev :
  isSettled (own i) = true -> own (snd (step (w, i) ev)) = own i.
Proof.
  intros Hset. destruct ev as [|error data|t o]; cbn [step snd];
    rewrite own_react; cbn [own].
  - now apply follow_settled.
  - rewrite completionCallback_resolved by now apply settled_not_pending.
    now apply follow_settled.
  - now apply follow_settled.
Qed.

Lemma own_fold_settled evs : forall w i,
  isSettled (own i) = true -> own (snd (fold_left step evs (w, i))) = own i.
Proof.
  induction evs as [|ev evs IH]; intros w i Hset; cbn [fold_left]; [reflexivity |].
  pose proof (own_step_settled w i ev Hset) as Hstep.
  destruct (step (w, i) ev) as [w' i']. cbn [snd] in Hstep.
  rewrite IH; congruence.
Qed.


(** From a pending promise, the first invocation of the completion callback
    among the events decides; without one the promise stays pending. *)
Lemma own_fold_pending evs : forall w i,
  own i = Pending ->
  match callbacksOf evs with
  | [] => own (snd (fold_left step evs (w, i))) = Pending
  | (error, data) :: _ =>
      isSettled (completionCallback Pending error data) = true ->
      own (snd (fold_left step evs (w, i))) = completionCallback Pending error data
  end.
Proof.
  induction evs as [|ev evs IH]; intros w i Hp; cbn [fold_left callbacksOf].
  - exact Hp.
  - destruct ev as [|error data|t o].
    + cbn [step]. apply IH. rewrite own_react. cbn [own]. now rewrite Hp.
    + cbn [step]. intros Hset. rewrite own_fold_settled.
      * rewrite own_react. cbn [own]. rewrite Hp. now apply follow_settled.
      * rewrite own_react. cbn [own]. rewrite Hp.
        now rewrite follow_settled.
    + cbn [step]. apply IH. rewrite own_react. now rewrite Hp.
Qed.

(** The promise of lines 50-55 is decided by the first invocation of the
    completion callback, be it made during the call of the hook or later. *)
Lemma own_final w i cs evs :
  own i = fold_left applyCall cs Pending ->
  match cs ++ callbacksOf evs with
  | [] => own (finalState w i evs) = Pending
  | (error, data) :: _ =>
      isSettled (completionCallback Pending error data) = true ->
      own (finalState w i evs) = completionCallback Pending error data
  end.
Proof.
  intros Hown. unfold finalState, run. destruct cs as [|[error data] cs].
  - cbn [app]. apply own_fold_pending. rewrite own_react. now rewrite Hown.
  - cbn [app]. intros Hset. rewrite fold_applyCall_first in Hown.
    unfold applyCall in Hown. cbn [fst snd] in Hown.
    rewrite own_fold_settled; rewrite own_react, Hown;
      now rewrite follow_settled.
Qed.






(** ** The plugin invoker *)

Lemma callPlugin_returns p method file fn result :
  member p method = Some fn ->
  completes (fn_apply fn (hookArguments fn file)) = Return result ->
  callPlugin p method file =
  Returned
    {| own := fold_left applyCall (calls (fn_apply fn (hookArguments fn file))) Pending;
       dog := safePromise
                (if isPromise result then promiseOf result else OwnPromise)
                warningLogInterval (tooLongMessage p method file) |}.
Proof.
  intros Hfn Hret. unfold callPlugin. rewrite Hfn.
  fold (hookArguments fn file). now rewrite Hret.
Qed.

Lemma callPlugin_throws p method file fn e :
  member p method = Some fn ->
  completes (fn_apply fn (hookArguments fn file)) = Throw e ->
  callPlugin p method file = Threw e.
Proof.
  intros Hfn Hthrow. unfold callPlugin. rewrite Hfn.
  fold (hookArguments fn file). now rewrite Hthrow.
Qed.

Lemma hookArguments_direct fn file :
  fn_length fn = 1%nat -> hookArguments fn file = [ArgFile file; ArgCallback].
Proof. intros H. unfold hookArguments. now rewrite H. Qed.

Lemma hookArguments_callback fn file :
  fn_length fn <> 1%nat ->
  hookArguments fn file =
  [ArgValue (file_data file); ArgValue (VString (file_path file)); ArgCallback].
Proof.
  intros H. unfold hookArguments.
  destruct (Nat.eqb (fn_length fn) 1) eqn:E; [| reflexivity].
  apply Nat.eqb_eq in E. contradiction.
Qed.

(** When the guarded promise is the one built by [callPlugin], the returned
    promise carries its state. *)
Lemma returned_follows_own w i evs :
  armed w i -> guarded (dog i) = OwnPromise ->
  (own (finalState w i evs) = Pending -> returnedPromise w i evs = Pending)
  /\ (forall r, own (finalState w i evs) = Rejected r ->
                returnedPromise w i evs = Rejected r)
  /\ (forall v, own (finalState w i evs) = Fulfilled v -> isPromise v = false ->
                returnedPromise w i evs = Fulfilled v).
Proof.
  intros Ha Hop. unfold returnedPromise.
  destruct (run_quiescent w i evs Ha) as (Harmed & _ & _ & Hidle).
  unfold armed in Harmed. unfold guardedState in Harmed, Hidle.
  rewrite guarded_run, Hop in Harmed, Hidle. cbn [operationState] in Harmed, Hidle.
  destruct (reacted (dog (finalState w i evs))).
  - destruct Harmed as (Hset & _ & _ & Hrej & Hful).
    repeat split; try assumption.
    intros Hp. rewrite Hp in Hset. discriminate.
  - destruct Harmed as (_ & _ & Hder). specialize (Hidle eq_refl).
    repeat split.
    + intros _. exact Hder.
    + intros r Hr. rewrite Hr in Hidle. discriminate.
    + intros v Hv. rewrite Hv in Hidle. discriminate.
Qed.

(** When the guarded promise is the one the hook returned, the returned
    promise carries its outcome. *)
Lemma returned_follows_thenable w i evs t :
  armed w i -> guarded (dog i) = Thenable t ->
  (finalWorld w i evs t = None -> returnedPromise w i evs = Pending)
  /\ (forall r, finalWorld w i evs t = Some (Reject r) ->
                returnedPromise w i evs = Rejected r)
  /\ (forall v, finalWorld w i evs t = Some (Fulfil v) -> isPromise v = false ->
                returnedPromise w i evs = Fulfilled v).
Proof.
  intros Ha Hop. unfold returnedPromise.
  destruct (run_quiescent w i evs Ha) as (Harmed & _ & _ & Hidle).
  unfold armed in Harmed. unfold guardedState in Harmed, Hidle.
  rewrite guarded_run, Hop in Harmed, Hidle. cbn [operationState] in Harmed, Hidle.
  destruct (reacted (dog (finalState w i evs))).
  - destruct Harmed as (Hset & _ & _ & Hrej & Hful).
    repeat split.
    + intros Hnone. rewrite Hnone in Hset. discriminate.
    + intros r Hr. apply Hrej. now rewrite Hr.
    + intros v Hv Hp. apply Hful; [now rewrite Hv | exact Hp].
  - destruct Harmed as (_ & _ & Hder). specialize (Hidle eq_refl).
    repeat split.
    + intros _. exact Hder.
    + intros r Hr. rewrite Hr in Hidle. discriminate.
    + intros v Hv. rewrite Hv in Hidle. discriminate.
Qed.

(** ** A promise resolved with a promise *)

Lemma world_step_keeps w i ev t o :
  w t = Some o -> fst (step (w, i) ev) t = Some o.
Proof.
  intros Hset. destruct ev as [|error data|t' o']; cbn [step fst];
    try exact Hset.
  now apply settle_keeps.
Qed.

Lemma follow_after w w' t :
  (forall o, w t = Some o -> w' t = Some o) ->
  follow w' (follow w (Following t)) = follow w' (Following t).
Proof.
  intros Hkeeps. cbn [follow]. destruct (w t) as [o|] eqn:E; [| reflexivity].
  rewrite (Hkeeps o eq_refl). now destruct o.
Qed.

Lemma own_step w i ev :
  own (snd (step (w, i) ev)) =
  follow (fst (step (w, i) ev))
    match ev with
    | Callback error data => completionCallback (own i) error data
    | _ => own i
    end.
Proof. destruct ev; reflexivity. Qed.

(** A promise that follows the promise [t] has, at every later moment, the
    state that following [t] gives at that moment. *)
Lemma own_fold_following evs t : forall w i,
  own i = follow w (Following t) ->
  own (snd (fold_left step evs (w, i))) =
  follow (fst (fold_left step evs (w, i))) (Following t).
Proof.
  induction evs as [|ev evs IH]; intros w i Hown; cbn [fold_left]; [exact Hown |].
  pose proof (own_step w i ev) as Hstep.
  assert (Hkeeps : forall o, w t = Some o -> fst (step (w, i) ev) t = Some o)
    by (intros o; apply world_step_keeps).
  assert (Hsame : match ev with
                  | Callback error data => completionCallback (own i) error data
                  | _ => own i
                  end = own i).
  { destruct ev as [|error data|t' o']; try reflexivity.
    apply completionCallback_resolved. rewrite Hown.
    apply follow_not_pending. discriminate. }
  rewrite Hsame, Hown in Hstep.
  destruct (step (w, i) ev) as [w' i']. cbn [fst snd] in Hstep, Hkeeps.
  apply IH. rewrite Hstep. now apply follow_after.
Qed.

Lemma own_fold_resolved evs q :
  q <> Pending ->
  forall w i,
    own i = follow w q ->
    own (snd (fold_left step evs (w, i))) =
    follow (fst (fold_left step evs (w, i))) q.
Proof.
  intros Hq w i Hown. destruct q as [|t|v|r].
  - congruence.
  - now apply own_fold_following.
  - cbn [follow] in *. rewrite own_fold_settled; now rewrite Hown.
  - cbn [follow] in *. rewrite own_fold_settled; now rewrite Hown.
Qed.

(** From a pending promise, the first invocation of the completion callback
    among the events resolves it, and its state is what following that
    resolution gives. *)
Lemma own_fold_first evs : forall w i,
  own i = Pending ->
  match callbacksOf evs with
  | [] => own (snd (fold_left step evs (w, i))) = Pending
  | (error, data) :: _ =>
      own (snd (fold_left step evs (w, i))) =
      follow (fst (fold_left step evs (w, i)))
        (completionCallback Pending error data)
  end.
Proof.
  induction evs as [|ev evs IH]; intros w i Hp; cbn [fold_left callbacksOf].
  - exact Hp.
  - destruct ev as [|error data|t o]; cbn [step].
    + apply IH. rewrite own_react. cbn [own]. now rewrite Hp.
    + apply own_fold_resolved; [apply completionCallback_not_pending |].
      rewrite own_react. cbn [own]. now rewrite Hp.
    + apply IH. rewrite own_react. now rewrite Hp.
Qed.

(** The promise of lines 50-55 at the end of a run: pending when the
    completion callback was never invoked, otherwise the state that the
    resolution made by the first invocation has by then. *)
Lemma own_final_resolved w i cs evs :
  own i = fold_left applyCall cs Pending ->
  match cs ++ callbacksOf evs with
  | [] => own (finalState w i evs) = Pending
  | (error, data) :: _ =>
      own (finalState w i evs) =
      follow (finalWorld w i evs) (completionCallback Pending error data)
  end.
Proof.
  intros Hown. unfold finalState, finalWorld, run.
  destruct cs as [|[error data] cs]; cbn [app].
  - apply own_fold_first. rewrite own_react. now rewrite Hown.
  - rewrite fold_applyCall_first in Hown. unfold applyCall in Hown.
    cbn [fst snd] in Hown.
    apply own_fold_resolved; [apply completionCallback_not_pending |].
    rewrite own_react. now rewrite Hown.
Qed.

Lemma returned_pending_while_own_unsettled w i evs :
  armed w i -> guarded (dog i) = OwnPromise ->
  isSettled (own (finalState w i evs)) = false ->
  returnedPromise w i evs = Pending.
Proof.
  intros Ha Hop Hpend. unfold returnedPromise.
  destruct (run_quiescent w i evs Ha) as (Harmed & _ & _ & _).
  unfold armed in Harmed. unfold guardedState in Harmed.
  rewrite guarded_run, Hop in Harmed. cbn [operationState] in Harmed.
  destruct (reacted (dog (finalState w i evs))).
  - destruct Harmed as (Hset & _). congruence.
  - now destruct Harmed as (_ & _ & Hder).
Qed.

(** C2, as the code behaves.  For a hook with one declared parameter whose
    returned value is not a promise, the returned value is discarded: the
    promise [callPlugin] returns is the one built around the completion
    callback, which the hook received as its second argument.  It stays
    pending as long as that callback has not been invoked, and the first
    invocation decides it: rejected with a truthy error; otherwise resolved
    with the data, that is fulfilled with the data when the data is not a
    promise, and in the state of the data when the data is a promise. *)
Theorem C2_direct_style_plain_value_is_discarded
    p method file fn result w evs :
  member p method = Some fn ->
  fn_length fn = 1%nat ->
  completes (fn_apply fn [ArgFile file; ArgCallback]) = Return result ->
  isPromise result = false ->
  exists i,
    callPlugin p method file = Returned i
    /\ guarded (dog i) = OwnPromise
    /\ (allCalls (fn_apply fn [ArgFile file; ArgCallback]) evs = [] ->
        returnedPromise w i evs = Pending)
    /\ (forall error data rest,
          allCalls (fn_apply fn [ArgFile file; ArgCallback]) evs
          = (error, data) :: rest ->
          (truthy error = true -> returnedPromise w i evs = Rejected error)
          /\ (truthy error = false -> isPromise data = false ->
              returnedPromise w i evs = Fulfilled data)
          /\ (truthy error = false -> forall t, data = VThenable t ->
              (finalWorld w i evs t = None ->
               returnedPromise w i evs = Pending)
              /\ (forall r, finalWorld w i evs t = Some (Reject r) ->
                            returnedPromise w i evs = Rejected r)
              /\ (forall v, finalWorld w i evs t = Some (Fulfil v) ->
                            isPromise v = false ->
                            returnedPromise w i evs = Fulfilled v))).
Proof.
  intros Hfn Hlen Hret Hplain.
  rewrite <- (hookArguments_direct fn file Hlen) in *.
  eexists. split; [apply (callPlugin_returns p method file fn result Hfn Hret) |].
  rewrite Hplain.
  set (i := {| own := _; dog := _ |}).
  assert (Ha : armed w i) by apply safePromise_armed.
  destruct (returned_follows_own w i evs Ha eq_refl) as (Hpend & Hrej & Hful).
  pose proof (returned_pending_while_own_unsettled w i evs Ha eq_refl) as Hwait.
  pose proof (own_final_resolved w i _ evs eq_refl) as Hown.
  unfold allCalls. split; [reflexivity |]. split.
  - intros Hnone. rewrite Hnone in Hown. now apply Hpend.
  - intros error data rest Hfirst. rewrite Hfirst in Hown.
    unfold completionCallback in Hown. split; [| split].
    + intros Herr. rewrite Herr in Hown. apply Hrej. exact Hown.
    + intros Herr Hdata. rewrite Herr in Hown.
      rewrite isPromise_false_resolve in Hown by exact Hdata.
      apply Hful; [exact Hown | exact Hdata].
    + intros Herr t ->. rewrite Herr in Hown. cbn [resolve follow] in Hown.
      repeat split.
      * intros Hnone. rewrite Hnone in Hown. apply Hwait. now rewrite Hown.
      * intros r Hr. rewrite Hr in Hown. apply Hrej. exact Hown.
      * intros v Hv Hplainv. rewrite Hv in Hown.
        apply Hful; [exact Hown | exact Hplainv].
Qed.

Lemma C2_direct_style_plain_value_is_discarded_witness :
  exists i,
    callPlugin (pluginWith returns42) "compile" sampleFile = Returned i
    /\ returnedPromise nothingSettled i [Tick; Tick] = Pending.
Proof.
  destruct (C2_direct_style_plain_value_is_discarded
              (pluginWith returns42) "compile" sampleFile returns42 (VNumber 42)
              nothingSettled [Tick; Tick]
              eq_refl eq_refl eq_refl eq_refl)
    as (i & Hcall & _ & Hpending & _).
  exists i. split; [exact Hcall | apply Hpending; reflexivity].
Defined.

(** C2, counterexample.  A hook with one declared parameter returns 42 and
    never invokes the callback: the promise [callPlugin] returns is not
    fulfilled with 42, it is still pending after two watchdog intervals, and
    the watchdog has warned twice. *)
Lemma C2_counterexample :
  fn_length returns42 = 1%nat
  /\ completes (fn_apply returns42 [ArgFile sampleFile; ArgCallback])
     = Return (VNumber 42)
  /\ isPromise (VNumber 42) = false
  /\ returnedPromise nothingSettled
       (invocationOf (callPlugin (pluginWith returns42) "compile" sampleFile)) []
     <> Fulfilled (VNumber 42)
  /\ returnedPromise nothingSettled
       (invocationOf (callPlugin (pluginWith returns42) "compile" sampleFile))
       [Tick; Tick]
     = Pending
  /\ List.length
       (warnings
          (dog (finalState nothingSettled
                  (invocationOf
                     (callPlugin (pluginWith returns42) "compile" sampleFile))
                  [Tick; Tick])))
     = 2%nat.
Proof.
  repeat split; try reflexivity. cbn. discriminate.
Qed.

(** C3, as the code behaves.  A hook that throws makes [callPlugin] itself
    throw the same error: no promise is returned.  When the hook returns a
    promise that is rejected, the returned promise is rejected with the same
    reason; when it returns something else and the first invocation of the
    completion callback carries a truthy error, the returned promise is
    rejected with that error. *)
Theorem C3_failures_carry_the_original_error p method file fn :
  member p method = Some fn ->
  (forall e,
     completes (fn_apply fn (hookArguments fn file)) = Throw e ->
     callPlugin p method file = Threw e)
  /\ (forall t,
        completes (fn_apply fn (hookArguments fn file)) = Return (VThenable t) ->
        exists i,
          callPlugin p method file = Returned i
          /\ forall w evs r,
               finalWorld w i evs t = Some (Reject r) ->
               returnedPromise w i evs = Rejected r)
  /\ (forall result,
        completes (fn_apply fn (hookArguments fn file)) = Return result ->
        isPromise result = false ->
        exists i,
          callPlugin p method file = Returned i
          /\ forall w evs error data rest,
               allCalls (fn_apply fn (hookArguments fn file)) evs
               = (error, data) :: rest ->
               truthy error = true ->
               returnedPromise w i evs = Rejected error).
Proof.
  intros Hfn. repeat split.
  - intros e Hthrow. now apply callPlugin_throws with (fn := fn).
  - intros t Hret. eexists.
    split; [apply (callPlugin_returns p method file fn _ Hfn Hret) |].
    cbn [isPromise truthy thenIsFunction andb promiseOf].
    intros w evs r Hr.
    set (i := {| own := _; dog := _ |}) in *.
    apply (returned_follows_thenable w i evs t); [| reflexivity | exact Hr].
    apply safePromise_armed.
  - intros result Hret Hplain. eexists.
    split; [apply (callPlugin_returns p method file fn _ Hfn Hret) |].
    rewrite Hplain. intros w evs error data rest Hfirst Herr.
    set (i := {| own := _; dog := _ |}) in *.
    assert (Ha : armed w i) by apply safePromise_armed.
    destruct (returned_follows_own w i evs Ha eq_refl) as (_ & Hrej & _).
    pose proof (own_final w i _ evs eq_refl) as Hown.
    unfold allCalls in Hfirst. rewrite Hfirst in Hown.
    unfold completionCallback in Hown. rewrite Herr in Hown.
    apply Hrej. now apply Hown.
Qed.

Lemma C3_failures_carry_the_original_error_witness :
  callPlugin (pluginWith throwsError) "compile" sampleFile = Threw (VObject 9).
Proof.
  apply (proj1 (C3_failures_carry_the_original_error
                  (pluginWith throwsError) "compile" sampleFile throwsError
                  eq_refl)).
  reflexivity.
Defined.

(** C3, counterexample.  A hook that throws does not yield a rejected
    promise: [callPlugin] throws, so it returns no promise at all. *)
Lemma C3_counterexample :
  completes (fn_apply throwsError (hookArguments throwsError sampleFile))
  = Throw (VObject 9)
  /\ callPlugin (pluginWith throwsError) "compile" sampleFile = Threw (VObject 9)
  /\ forall i, callPlugin (pluginWith throwsError) "compile" sampleFile <> Returned i.
Proof.
  repeat split. intros i. cbn. discriminate.
Qed.

(** C6, as the code behaves.  For a hook that does not declare exactly one
    parameter, the promise built around the completion callback stays
    pending while the callback has not been invoked, and its first
    invocation decides it: with a truthy error it is rejected with that
    error; with a falsy error ([null], [undefined], [0], [NaN], [false] or
    the empty string) it is resolved with the data, that is fulfilled with
    the data when the data is not a promise, and following the data when the
    data is a promise.  So it is rejected exactly when the first invocation
    carries a truthy error, or a falsy error and a promise that is
    rejected. *)
Theorem C6_truthy_error_rejects p method file fn result :
  member p method = Some fn ->
  fn_length fn <> 1%nat ->
  completes
    (fn_apply fn
       [ArgValue (file_data file); ArgValue (VString (file_path file)); ArgCallback])
  = Return result ->
  exists i,
    callPlugin p method file = Returned i
    /\ forall w evs,
         (allCalls
            (fn_apply fn
               [ArgValue (file_data file); ArgValue (VString (file_path file));
                ArgCallback]) evs
          = [] ->
          own (finalState w i evs) = Pending)
         /\ forall error data rest,
              allCalls
                (fn_apply fn
                   [ArgValue (file_data file); ArgValue (VString (file_path file));
                    ArgCallback]) evs
              = (error, data) :: rest ->
              (truthy error = true -> own (finalState w i evs) = Rejected error)
              /\ (truthy error = false -> isPromise data = false ->
                  own (finalState w i evs) = Fulfilled data)
              /\ (truthy error = false -> forall t, data = VThenable t ->
                  own (finalState w i evs) =
                  match finalWorld w i evs t with
                  | Some o => adopt o
                  | None => Following t
                  end)
              /\ (forall r,
                    own (finalState w i evs) = Rejected r <->
                    (truthy error = true /\ r = error)
                    \/ (truthy error = false
                        /\ exists t, data = VThenable t
                                     /\ finalWorld w i evs t = Some (Reject r))).
Proof.
  intros Hfn Hlen Hret.
  rewrite <- (hookArguments_callback fn file Hlen) in *.
  eexists. split; [apply (callPlugin_returns p method file fn result Hfn Hret) |].
  intros w evs.
  set (i := {| own := _; dog := _ |}).
  pose proof (own_final_resolved w i _ evs eq_refl) as Hown.
  unfold allCalls. split.
  - intros Hnone. now rewrite Hnone in Hown.
  - intros error data rest Hfirst. rewrite Hfirst in Hown.
    unfold completionCallback in Hown.
    destruct (truthy error) eqn:Herr.
    + cbn [reject follow] in Hown.
      split; [intros _; exact Hown |].
      split; [discriminate |].
      split; [discriminate |].
      intros r. rewrite Hown. split.
      * intros Hr. left. split; congruence.
      * intros [[_ ->] | [Hno _]]; [reflexivity | discriminate].
    + split; [discriminate |].
      split.
      { intros _ Hdata. rewrite isPromise_false_resolve in Hown by exact Hdata.
        exact Hown. }
      split.
      { intros _ t ->. exact Hown. }
      intros r. rewrite Hown. split.
      * intros Hr. right. split; [reflexivity |].
        destruct data as [| | | | | | |t]; try (cbn in Hr; discriminate).
        exists t. split; [reflexivity |].
        cbn [resolve follow] in Hr.
        destruct (finalWorld w i evs t) as [[v|r']|]; try discriminate.
        cbn [adopt] in Hr. congruence.
      * intros [[Hno _] | [_ (t & -> & Hr)]]; [discriminate |].
        cbn [resolve follow]. now rewrite Hr.
Qed.

Lemma C6_truthy_error_rejects_witness :
  exists i,
    callPlugin (pluginWith callsBackLater) "compile" sampleFile = Returned i
    /\ own (finalState nothingSettled i
              [Tick; Callback (VString "boom") VUndefined])
       = Rejected (VString "boom").
Proof.
  destruct (C6_truthy_error_rejects
              (pluginWith callsBackLater) "compile" sampleFile callsBackLater
              VUndefined eq_refl) as (i & Hcall & Hown).
  - discriminate.
  - reflexivity.
  - exists i. split; [exact Hcall |].
    destruct (proj2 (Hown nothingSettled
                       [Tick; Callback (VString "boom") VUndefined])
                (VString "boom") VUndefined [] eq_refl) as (Hrejected & _).
    apply Hrejected. reflexivity.
Defined.

(** C6, counterexample.  The callback is invoked with the error [0], which
    is not [null]: the promise is not rejected, it is fulfilled with the
    data.  The same happens with the empty string. *)
Lemma C6_counterexample :
  fn_length callsBackWithZero <> 1%nat
  /\ calls (fn_apply callsBackWithZero (hookArguments callsBackWithZero sampleFile))
     = [(VNumber 0, VString "out")]
  /\ own (finalState nothingSettled
            (invocationOf
               (callPlugin (pluginWith callsBackWithZero) "compile" sampleFile)) [])
     = Fulfilled (VString "out")
  /\ returnedPromise nothingSettled
       (invocationOf
          (callPlugin (pluginWith callsBackWithZero) "compile" sampleFile)) []
     <> Rejected (VNumber 0)
  /\ completionCallback Pending (VString "") (VString "out")
     = Fulfilled (VString "out").
Proof.
  repeat split; try reflexivity; cbn; discriminate.
Qed.




(** * Further properties *)

(** ** The summary generator: what the classification computes *)

Lemma pushUnique_NoDup acc name : NoDup acc -> NoDup (pushUnique acc name).
Proof.
  intros Hnd. unfold pushUnique. destruct (Js.includes name acc) eqn:E.
  - exact Hnd.
  - apply NoDup_app; [exact Hnd | repeat constructor; intros [] |].
    intros x Hx [<- | []].
    apply includes_In in Hx. congruence.
Qed.

Lemma fold_pushUnique_NoDup names : forall acc,
  NoDup acc -> NoDup (fold_left pushUnique names acc).
Proof.
  induction names as [|n names IH]; intros acc Hnd; cbn [fold_left].
  - exact Hnd.
  - apply IH, pushUnique_NoDup, Hnd.
Qed.

Lemma fold_visitGenerated_NoDup basename startTime dgen gfs : forall t,
  NoDup (compiled t) ->
  NoDup (compiled (fold_left (visitGenerated basename startTime dgen) gfs t)).
Proof.
  induction gfs as [|g gfs IH]; intros t Hnd; cbn [fold_left]; [exact Hnd |].
  apply IH. rewrite visitGenerated_eq. cbv zeta.
  destruct (changedThisPass startTime dgen g); cbn [compiled];
    now apply fold_pushUnique_NoDup.
Qed.

(** The list of compiled names never holds a name twice, however many
    bundles share a source file and whatever the base names are. *)
Theorem compiled_names_are_distinct
    basename startTime generatedFiles disposedFiles :
  NoDup (compiled (classify basename startTime generatedFiles disposedFiles)).
Proof.
  unfold classify. apply fold_visitGenerated_NoDup. constructor.
Qed.

Lemma fold_visitGenerated_generated basename startTime dgen gfs : forall t,
  generated (fold_left (visitGenerated basename startTime dgen) gfs t) =
  generated t
  ++ map (getName basename) (filter (changedThisPass startTime dgen) gfs).
Proof.
  induction gfs as [|g gfs IH]; intros t; cbn [fold_left filter].
  - cbn. now rewrite app_nil_r.
  - rewrite IH, visitGenerated_eq. cbv zeta.
    destruct (changedThisPass startTime dgen g); cbn [generated map].
    + now rewrite <- app_assoc.
    + reflexivity.
Qed.

(** The generated names are the base names of the bundles the code finds
    changed, in the order of the input; a bundle that occurs twice is named
    twice. *)
Theorem generated_names_follow_input_order
    basename startTime generatedFiles disposedFiles :
  generated (classify basename startTime generatedFiles disposedFiles) =
  map (getName basename)
    (filter (changedThisPass startTime (disposed_generated disposedFiles))
       generatedFiles).
Proof.
  unfold classify. now rewrite fold_visitGenerated_generated.
Qed.

Lemma cachedSources_length startTime g :
  Z.of_nat (List.length (cachedSources startTime g)) =
  Z.of_nat (List.length (sourceFiles g))
  - Z.of_nat (List.length (filter (compiledNow startTime) (sourceFiles g))).
Proof.
  unfold cachedSources.
  pose proof (filter_length (compiledNow startTime) (sourceFiles g)). lia.
Qed.

Lemma fold_visitGenerated_cachedCount basename startTime dgen gfs : forall t,
  cachedCount (fold_left (visitGenerated basename startTime dgen) gfs t) =
  cachedCount t
  + Z.of_nat
      (List.length
         (flat_map (cachedSources startTime)
            (filter (changedThisPass startTime dgen) gfs))).
Proof.
  induction gfs as [|g gfs IH]; intros t; cbn [fold_left filter].
  - cbn. lia.
  - rewrite IH, visitGenerated_eq. cbv zeta.
    destruct (changedThisPass startTime dgen g); cbn [cachedCount flat_map].
    + rewrite length_app, Nat2Z.inj_add, cachedSources_length. lia.
    + reflexivity.
Qed.

(** [cachedCount] is the number of source files of changed bundles that
    were not compiled in this pass, counted once per bundle they belong to;
    it is never negative. *)
Theorem cachedCount_counts_uncompiled_sources_of_changed_bundles
    basename startTime generatedFiles disposedFiles :
  cachedCount (classify basename startTime generatedFiles disposedFiles) =
  Z.of_nat
    (List.length
       (flat_map (cachedSources startTime)
          (filter (changedThisPass startTime (disposed_generated disposedFiles))
             generatedFiles)))
  /\ 0 <= cachedCount (classify basename startTime generatedFiles disposedFiles).
Proof.
  unfold classify. rewrite fold_visitGenerated_cachedCount. cbn [cachedCount].
  split; lia.
Qed.

Lemma fold_visitGenerated_skip basename startTime dgen gfs : forall t,
  fold_left (visitGenerated basename startTime dgen) gfs t =
  fold_left (visitGenerated basename startTime dgen)
    (filter (changedThisPass startTime dgen) gfs) t.
Proof.
  induction gfs as [|g gfs IH]; intros t; cbn [fold_left filter]; [reflexivity |].
  destruct (changedThisPass startTime dgen g) eqn:E; cbn [fold_left].
  - apply IH.
  - rewrite IH. f_equal. rewrite visitGenerated_eq. cbv zeta. rewrite E.
    unfold changedThisPass in E. apply orb_false_iff in E as [E _].
    rewrite (filter_nil_of_existsb_false _ _ E). now destruct t.
Qed.

(** The bundles the code finds unchanged do not show in the summary at all:
    leaving them out of the input gives the same line. *)
Theorem unchanged_bundles_do_not_affect_the_summary
    basename toFixed1 now startTime allAssets generatedFiles disposedFiles :
  generateCompilationLog basename toFixed1 now startTime allAssets
    generatedFiles disposedFiles
  = generateCompilationLog basename toFixed1 now startTime allAssets
      (filter (changedThisPass startTime (disposed_generated disposedFiles))
         generatedFiles)
      disposedFiles.
Proof.
  unfold generateCompilationLog, headline, mainLog, classify.
  now rewrite fold_visitGenerated_skip.
Qed.

Lemma changedThisPass_old_sources startTime g :
  (forall sf, In sf (sourceFiles g) -> compilationTime sf < startTime) ->
  existsb (compiledNow startTime) (sourceFiles g) = false.
Proof.
  intros Hold. induction (sourceFiles g) as [|sf l IH]; cbn; [reflexivity |].
  unfold compiledNow at 1.
  replace (startTime <=? compilationTime sf) with false.
  - apply IH. intros x Hx. apply Hold. now right.
  - symmetry. apply Z.leb_gt. apply Hold. now left.
Qed.

Lemma classify_nothing_changed basename startTime gfs disposedFiles :
  (forall g, In g gfs ->
     changedThisPass startTime (disposed_generated disposedFiles) g = false) ->
  classify basename startTime gfs disposedFiles = noTally.
Proof.
  intros Hnone. unfold classify. rewrite fold_visitGenerated_skip.
  replace (filter (changedThisPass startTime (disposed_generated disposedFiles)) gfs)
    with (@nil GeneratedFile); [reflexivity |].
  symmetry. induction gfs as [|g gfs IH]; cbn [filter]; [reflexivity |].
  rewrite (Hnone g) by now left. apply IH. intros x Hx. apply Hnone. now right.
Qed.

(** When no source file was compiled in this pass and nothing was disposed,
    the summary speaks of the copied assets only: the name of the single
    copied asset, the count followed by ["files"] when there are several,
    and the bare word ["compiled"] when there is none. *)
Theorem summary_of_a_pass_that_only_copied_assets
    basename startTime allAssets generatedFiles :
  (forall g sf, In g generatedFiles -> In sf (sourceFiles g) ->
                compilationTime sf < startTime) ->
  headline basename startTime allAssets generatedFiles nothingDisposed =
  match copiedNames basename startTime allAssets with
  | [] => "compiled"
  | [name] => "copied " ++ name
  | names => "copied " ++ Js.string_of_nat (List.length names) ++ " files"
  end%string.
Proof.
  intros Hold. unfold headline, mainLog.
  rewrite classify_nothing_changed.
  - cbn [noTally compiled generated cachedCount nothingDisposed sourcePaths].
    destruct (copiedNames basename startTime allAssets) as [|n1 [|n2 names]].
    + reflexivity.
    + reflexivity.
    + reflexivity.
  - intros g Hg. unfold changedThisPass.
    rewrite (changedThisPass_old_sources startTime g) by (intros sf; now apply Hold).
    cbn. now rewrite andb_false_r.
Qed.

Lemma summary_of_a_pass_that_only_copied_assets_witness :
  headline posixBasename 200
    [{| asset_path := "app/assets/a.png"; copyTime := 230 |};
     {| asset_path := "app/assets/b.png"; copyTime := 200 |};
     {| asset_path := "app/assets/c.png"; copyTime := 201 |}]
    [ie7Bundle; emptyBundle] nothingDisposed
  = "copied 2 files"%string.
Proof.
  apply (summary_of_a_pass_that_only_copied_assets posixBasename 200
           [{| asset_path := "app/assets/a.png"; copyTime := 230 |};
            {| asset_path := "app/assets/b.png"; copyTime := 200 |};
            {| asset_path := "app/assets/c.png"; copyTime := 201 |}]
           [ie7Bundle; emptyBundle]).
  intros g sf [<- | [<- | []]] Hsf; cbn in Hsf;
    repeat (destruct Hsf as [<- | Hsf]; [cbn; lia |]); destruct Hsf.
Defined.

(** A bundle that lost a source file, still has source files, and had none
    of them compiled in this pass is reported with the removed path, the
    number of its source files as cached, and its own name. *)
Theorem summary_of_a_removal basename startTime allAssets g dgen p :
  sourceFiles g <> [] ->
  (forall sf, In sf (sourceFiles g) -> compilationTime sf < startTime) ->
  includesObject g dgen = true ->
  (forall a, In a allAssets -> copyTime a <= startTime) ->
  headline basename startTime allAssets [g]
    {| disposed_generated := dgen; sourcePaths := [p] |}
  = ("removed " ++ p ++ " and wrote "
     ++ Js.string_of_Z (Z.of_nat (List.length (sourceFiles g)))
     ++ " cached files into " ++ basename (generated_path g))%string.
Proof.
  intros Hne Hold Hin Hassets.
  pose proof (changedThisPass_old_sources startTime g Hold) as Hnone.
  assert (Hchanged : changedThisPass startTime dgen g = true).
  { unfold changedThisPass. rewrite Hnone, Hin.
    destruct (sourceFiles g); [congruence | reflexivity]. }
  assert (Hlen : (Z.of_nat (List.length (sourceFiles g)) =? 0) = false).
  { apply Z.eqb_neq. destruct (sourceFiles g); [congruence | cbn; lia]. }
  unfold headline, mainLog.
  rewrite (copiedNames_none _ _ _ Hassets).
  unfold classify. cbn [fold_left disposed_generated sourcePaths].
  rewrite visitGenerated_eq. cbv zeta. rewrite Hchanged.
  rewrite (filter_nil_of_existsb_false _ _ Hnone).
  cbn [map fold_left generated compiled cachedCount app List.length].
  rewrite Z.add_0_l, Z.sub_0_r.
  unfold compiledLog, cachedLog, generatedLog, assetsLog.
  cbn [List.length Nat.ltb Nat.leb]. rewrite Hlen.
  cbn [Js.toString String.concat Js.nonEmpty andb Nat.eqb negb].
  cbn [append]. rewrite !andb_false_r, !append_empty_r.
  repeat (rewrite !append_assoc; cbn [append]). reflexivity.
Qed.

Lemma summary_of_a_removal_witness :
  headline posixBasename 100 []
    [{| oid := 3; generated_path := "public/app.js";
        sourceFiles := sampleSources "old" 50 3 |}]
    {| disposed_generated :=
         [{| oid := 3; generated_path := "public/app.js";
             sourceFiles := sampleSources "old" 50 3 |}];
       sourcePaths := ["gone.js"%string] |}
  = "removed gone.js and wrote 3 cached files into app.js"%string.
Proof.
  apply (summary_of_a_removal posixBasename 100 []
           {| oid := 3; generated_path := "public/app.js";
              sourceFiles := sampleSources "old" 50 3 |}).
  - discriminate.
  - intros sf Hsf. cbn in Hsf.
    repeat (destruct Hsf as [<- | Hsf]; [cbn; lia |]). destruct Hsf.
  - reflexivity.
  - intros a [].
Defined.

(** ** The progress animator: first delay and cancellation *)

(** The first tick is scheduled [4000 - timePassed] milliseconds ahead, and
    at once when more than 4000 milliseconds have passed already; a missing
    [timePassed] counts as 0. *)
Theorem first_tick_delay (timePassed : option Z) :
  scheduled (getCompilationProgress timePassed) =
  Some (Z.max 0 (animationLogInterval
                 - match timePassed with Some t => t | None => 0 end)).
Proof.
  unfold getCompilationProgress, animationLogInterval. cbn [scheduled]. f_equal.
  destruct timePassed as [t|]; [| reflexivity].
  destruct (t =? 0) eqn:E0.
  - apply Z.eqb_eq in E0. subst t. reflexivity.
  - destruct (4000 - t <? 0) eqn:E1.
    + apply Z.ltb_lt in E1. lia.
    + apply Z.ltb_ge in E1. lia.
Qed.

Lemma fire_cancelled n a : Nat.iter n fire (cancel a) = cancel a.
Proof.
  induction n as [|n IH]; [reflexivity |].
  rewrite Nat.iter_succ, IH. reflexivity.
Qed.

(** Once the returned function has been called after [k] ticks, exactly the
    lines of the ticks [0 .. k-1] have been emitted, and no timeout that
    elapses later emits anything. *)
Theorem cancel_stops_the_animation (timePassed : option Z) (k n : nat) :
  emitted
    (Nat.iter n fire
       (cancel (Nat.iter k fire (getCompilationProgress timePassed))))
  = map lineAt (seq 0 k).
Proof.
  rewrite fire_cancelled. cbn [cancel emitted].
  now destruct (fire_iter timePassed k) as (_ & _ & Hout).
Qed.

(** ** The watchdog: warnings while the guarded promise is pending *)

Lemma warnings_react w i : warnings (dog (react w i)) = warnings (dog i).
Proof.
  unfold react, followDerived, thenReaction. cbn [dog warnings].
  destruct (reacted (dog i)); [reflexivity |].
  destruct (operationState w (follow w (own i)) (guarded (dog i)));
    reflexivity.
Qed.

Lemma timeoutMessage_react w i :
  timeoutMessage (dog (react w i)) = timeoutMessage (dog i).
Proof.
  unfold react, followDerived, thenReaction. cbn [dog timeoutMessage].
  destruct (reacted (dog i)); [reflexivity |].
  destruct (operationState w (follow w (own i)) (guarded (dog i)));
    reflexivity.
Qed.

Lemma timeoutMessage_step w i ev :
  timeoutMessage (dog (snd (step (w, i) ev))) = timeoutMessage (dog i).
Proof.
  destruct ev; cbn [step snd]; rewrite timeoutMessage_react; [| reflexivity..].
  cbn [dog]. unfold tick. destruct (warnActive (dog i)); reflexivity.
Qed.

Lemma warnings_step w i ev :
  warnActive (dog i) = true ->
  warnings (dog (snd (step (w, i) ev))) =
  warnings (dog i)
  ++ match ev with Tick => [timeoutMessage (dog i)] | _ => [] end.
Proof.
  intros Hon. destruct ev; cbn [step snd]; rewrite warnings_react; cbn [dog].
  - unfold tick. now rewrite Hon.
  - now rewrite app_nil_r.
  - now rewrite app_nil_r.
Qed.

(** A guarded promise that has settled keeps its state. *)
Lemma guardedState_step_settled w i ev :
  isSettled (guardedState w i) = true ->
  guardedState (fst (step (w, i) ev)) (snd (step (w, i) ev)) = guardedState w i.
Proof.
  intros Hset. unfold guardedState in *. rewrite guarded_step.
  destruct (guarded (dog i)) as [|t] eqn:Hop; cbn [operationState] in *.
  - now apply own_step_settled.
  - destruct ev as [|error data|t' o]; cbn [step fst]; try reflexivity.
    destruct (w t) as [o0|] eqn:E; [| discriminate].
    now rewrite (settle_keeps w t' o t o0 E).
Qed.

Lemma guardedState_fold_settled evs : forall w i,
  isSettled (guardedState w i) = true ->
  isSettled
    (guardedState (fst (fold_left step evs (w, i)))
       (snd (fold_left step evs (w, i)))) = true.
Proof.
  induction evs as [|ev evs IH]; intros w i Hset; cbn [fold_left]; [exact Hset |].
  pose proof (guardedState_step_settled w i ev Hset) as Hstep.
  destruct (step (w, i) ev) as [w' i']. cbn [fst snd] in Hstep.
  apply IH. now rewrite Hstep.
Qed.

Lemma warnings_fold_pending evs : forall w i,
  quiescent w i ->
  isSettled
    (guardedState (fst (fold_left step evs (w, i)))
       (snd (fold_left step evs (w, i)))) = false ->
  warnings (dog (snd (fold_left step evs (w, i)))) =
  warnings (dog i) ++ repeat (timeoutMessage (dog i)) (countTicks evs).
Proof.
  induction evs as [|ev evs IH]; intros w i Hq Hpend; cbn [fold_left].
  - cbn. now rewrite app_nil_r.
  - assert (Hnow : isSettled (guardedState w i) = false).
    { destruct (isSettled (guardedState w i)) eqn:E; [| reflexivity].
      pose proof (guardedState_fold_settled (ev :: evs) w i E) as Hlate.
      congruence. }
    assert (Hon : warnActive (dog i) = true).
    { destruct Hq as (Harmed & _). unfold armed in Harmed.
      destruct (reacted (dog i)).
      - destruct Harmed as (Hset & _). congruence.
      - now destruct Harmed. }
    pose proof (step_quiescent w i ev Hq) as Hq'.
    pose proof (warnings_step w i ev Hon) as Hw.
    pose proof (timeoutMessage_step w i ev) as Hm.
    cbn [fold_left] in Hpend.
    destruct (step (w, i) ev) as [w' i']. cbn [fst snd] in Hq', Hw, Hm.
    rewrite (IH w' i' Hq' Hpend), Hw, Hm, <- app_assoc.
    destruct ev; reflexivity.
Qed.

(** As long as the guarded promise has not settled, every elapsed interval
    has logged the message once: the warnings are exactly one copy of the
    message per [Tick]. *)
Theorem watchdog_warns_once_per_interval_while_pending
    (promise : operation) (interval : Z) (message : string)
    (p0 : pstate) (w : world) (evs : list event) :
  isSettled
    (operationState
       (finalWorld w {| own := p0; dog := safePromise promise interval message |} evs)
       (own (finalState w
               {| own := p0; dog := safePromise promise interval message |} evs))
       promise) = false ->
  warnings
    (dog (finalState w
            {| own := p0; dog := safePromise promise interval message |} evs))
  = repeat message (countTicks evs).
Proof.
  set (i0 := {| own := p0; dog := safePromise promise interval message |}).
  intros Hpend. unfold finalState, finalWorld, run in *.
  pose proof (react_quiescent w i0 (safePromise_armed w p0 _ _ _)) as Hq.
  rewrite (warnings_fold_pending evs w (react w i0) Hq).
  - rewrite warnings_react, timeoutMessage_react. reflexivity.
  - unfold guardedState. rewrite guarded_fold, guarded_react. exact Hpend.
Qed.

Lemma watchdog_warns_once_per_interval_while_pending_witness :
  warnings
    (dog (finalState nothingSettled
            {| own := Pending; dog := safePromise (Thenable 5) 15000 "slow" |}
            [Tick; Callback VNull VNull; Tick; Settles 6 (Fulfil VNull); Tick]))
  = ["slow"; "slow"; "slow"]%string.
Proof.
  apply (watchdog_warns_once_per_interval_while_pending
           (Thenable 5) 15000 "slow" Pending nothingSettled
           [Tick; Callback VNull VNull; Tick; Settles 6 (Fulfil VNull); Tick]).
  reflexivity.
Defined.

(** ** The plugin invoker: a hook that returns a promise *)

(** When the hook returns a promise, the promise [callPlugin] returns
    carries the state of that promise and nothing else: invocations of the
    completion callback, before or after the hook returns, have no effect on
    it. *)
Theorem hook_promise_decides_alone p method file fn t :
  member p method = Some fn ->
  completes (fn_apply fn (hookArguments fn file)) = Return (VThenable t) ->
  exists i,
    callPlugin p method file = Returned i
    /\ forall w evs,
         (finalWorld w i evs t = None -> returnedPromise w i evs = Pending)
         /\ (forall r, finalWorld w i evs t = Some (Reject r) ->
                       returnedPromise w i evs = Rejected r)
         /\ (forall v, finalWorld w i evs t = Some (Fulfil v) ->
                       isPromise v = false ->
                       returnedPromise w i evs = Fulfilled v).
Proof.
  intros Hfn Hret. eexists.
  split; [apply (callPlugin_returns p method file fn _ Hfn Hret) |].
  cbn [isPromise truthy thenIsFunction andb promiseOf].
  intros w evs. apply returned_follows_thenable; [| reflexivity].
  apply safePromise_armed.
Qed.

Lemma hook_promise_decides_alone_witness :
  exists i,
    callPlugin (pluginWith returnsPromise5) "compile" sampleFile = Returned i
    /\ returnedPromise nothingSettled i
         [Callback (VString "boom") VNull; Tick;
          Settles 5 (Fulfil (VString "js"))]
       = Fulfilled (VString "js").
Proof.
  destruct (hook_promise_decides_alone
              (pluginWith returnsPromise5) "compile" sampleFile returnsPromise5 5
              eq_refl eq_refl) as (i & Hcall & Hfollows).
  exists i. split; [exact Hcall |].
  apply (Hfollows nothingSettled
           [Callback (VString "boom") VNull; Tick;
            Settles 5 (Fulfil (VString "js"))]); reflexivity.
Defined.

(** ** [flatten] *)

(** [flatten] removes exactly one level of nesting: an array of arrays
    becomes the concatenation of those arrays, whose elements are kept as
    they are, arrays included; an array that holds no array is returned
    element by element. *)
Theorem flatten_removes_one_level {A : Type}
    (rows : list (list (element A))) (plain : list A) :
  flatten (map ArrayOf rows) = List.concat rows
  /\ flatten (map Item plain) = map Item plain.
Proof.
  unfold flatten. split.
  - induction rows as [|row rows IH]; cbn; [reflexivity | now rewrite IH].
  - induction plain as [|a plain IH]; cbn; [reflexivity | now rewrite IH].
Qed.

(** Flattening commutes with concatenation, and the length of the result is
    the number of elements that are not arrays plus the lengths of the
    elements that are. *)
Theorem flatten_app_length {A : Type} (xs ys : list (element A)) :
  flatten (xs ++ ys) = flatten xs ++ flatten ys
  /\ List.length (flatten xs) =
     list_sum (map (fun x => match x with
                             | ArrayOf items => List.length items
                             | Item _ => 1%nat
                             end) xs).
Proof.
  unfold flatten. split.
  - apply flat_map_app.
  - induction xs as [|x xs IH]; cbn [flat_map map list_sum]; [reflexivity |].
    rewrite length_app, IH. destruct x; reflexivity.
Qed.

(** ** [promiseReduce] *)

Lemma reduceFrom_app {A : Type} d (callback : A -> applied) xs : forall ys promise,
  reduceFrom d callback (xs ++ ys) promise =
  match reduceFrom d callback xs promise with
  | ReduceThrew e => ReduceThrew e
  | ReducePromise q => reduceFrom d callback ys q
  end.
Proof.
  induction xs as [|x xs IH]; intros ys promise; cbn [app reduceFrom].
  - reflexivity.
  - destruct (callback x) as [e|h]; [reflexivity | apply IH].
Qed.

(** Reducing over [xs ++ ys] is reducing over [ys] from the promise that
    reducing over [xs] returns; an empty array returns the promise of the
    initial value. *)
Theorem promiseReduce_composes {A : Type} d (callback : A -> applied)
    (xs ys : list A) (initial : value) :
  promiseReduce d [] callback initial = ReducePromise (resolved d initial)
  /\ promiseReduce d (xs ++ ys) callback initial =
     match promiseReduce d xs callback initial with
     | ReduceThrew e => ReduceThrew e
     | ReducePromise q => reduceFrom d callback ys q
     end.
Proof.
  split; [reflexivity |]. unfold promiseReduce. apply reduceFrom_app.
Qed.

(** When every [callback(item)] returns a function that returns a value
    which is not a promise, the returned promise is fulfilled with the
    initial value passed through those functions in the order of the
    array. *)
Theorem promiseReduce_threads_the_value {A : Type} d
    (callback : A -> applied) (g : A -> value -> value)
    (array : list A) (initial : value) :
  (forall item, callback item = Gives (Function (fun v => Return (g item v)))) ->
  (forall item v, isPromise (g item v) = false) ->
  isPromise initial = false ->
  promiseReduce d array callback initial =
  ReducePromise (Ends (Fulfil (fold_left (fun v item => g item v) array initial))).
Proof.
  intros Hcb Hplain Hinit. unfold promiseReduce.
  assert (Hres : forall v, isPromise v = false -> resolved d v = Ends (Fulfil v)).
  { intros v Hv. destruct v; try reflexivity. discriminate. }
  rewrite (Hres initial Hinit). clear Hinit.
  revert initial. induction array as [|item rest IH]; intros initial;
    cbn [reduceFrom fold_left]; [reflexivity |].
  rewrite Hcb. cbn [thenFate]. rewrite Hres by apply Hplain. apply IH.
Qed.

Lemma promiseReduce_threads_the_value_witness :
  promiseReduce (fun _ => Never) [1; 2; 3]
    (fun n => Gives (Function (fun v =>
       Return (match v with VNumber m => VNumber (10 * m + n) | _ => VNull end))))
    (VNumber 0)
  = ReducePromise (Ends (Fulfil (VNumber 123))).
Proof.
  apply (promiseReduce_threads_the_value (fun _ => Never)
           (fun n => Gives (Function (fun v =>
              Return (match v with VNumber m => VNumber (10 * m + n) | _ => VNull end))))
           (fun n v => match v with VNumber m => VNumber (10 * m + n) | _ => VNull end)
           [1; 2; 3] (VNumber 0)).
  - reflexivity.
  - intros item v. destruct v; try reflexivity. apply andb_false_r.
  - reflexivity.
Defined.

(** A promise that is rejected, or never settles, passes through every
    handler: as long as no [callback(item)] throws, what [promiseReduce]
    returns from there is that same promise, whatever the handlers are. *)
Theorem promiseReduce_skips_handlers_after_a_rejection {A : Type} d
    (callback : A -> applied) (array : list A) (promise : fate) :
  (forall item, In item array -> exists h, callback item = Gives h) ->
  (forall v, promise <> Ends (Fulfil v)) ->
  reduceFrom d callback array promise = ReducePromise promise.
Proof.
  intros Hcb Hnot. induction array as [|item rest IH]; cbn [reduceFrom];
    [reflexivity |].
  destruct (Hcb item (or_introl eq_refl)) as (h & ->).
  replace (thenFate d promise h) with promise.
  - apply IH. intros x Hx. apply Hcb. now right.
  - destruct promise as [|[v|r]]; try reflexivity. now destruct (Hnot v).
Qed.

Lemma promiseReduce_skips_handlers_after_a_rejection_witness :
  reduceFrom (fun _ => Never)
    (fun n : Z => Gives (Function (fun _ => Return (VNumber n))))
    [1; 2] (Ends (Reject (VString "boom")))
  = ReducePromise (Ends (Reject (VString "boom"))).
Proof.
  apply (promiseReduce_skips_handlers_after_a_rejection (fun _ => Never)
           (fun n : Z => Gives (Function (fun _ => Return (VNumber n))))
           [1; 2] (Ends (Reject (VString "boom")))).
  - intros item _. eexists. reflexivity.
  - intros v. discriminate.
Defined.

(** Every [callback(item)] is evaluated while the chain is being built: the
    first one that throws makes [promiseReduce] throw, even when the promise
    built before it is already rejected and its handler could never run. *)
Theorem promiseReduce_calls_back_eagerly {A : Type} d
    (callback : A -> applied) (before after : list A) (item : A)
    (e initial : value) :
  (forall x, In x before -> exists h, callback x = Gives h) ->
  callback item = Raises e ->
  promiseReduce d (before ++ item :: after) callback initial = ReduceThrew e.
Proof.
  intros Hcb Hraise. unfold promiseReduce. generalize (resolved d initial).
  induction before as [|x before IH]; intros promise; cbn [app reduceFrom].
  - now rewrite Hraise.
  - destruct (Hcb x (or_introl eq_refl)) as (h & ->).
    apply IH. intros y Hy. apply Hcb. now right.
Qed.

Lemma promiseReduce_calls_back_eagerly_witness :
  promiseReduce (fun _ => Never) ([true] ++ false :: [true])
    (fun ok : bool =>
       if ok then Gives (Function (fun _ => Throw (VString "late")))
       else Raises (VString "now"))
    VNull
  = ReduceThrew (VString "now").
Proof.
  apply (promiseReduce_calls_back_eagerly (fun _ => Never)
           (fun ok : bool =>
              if ok then Gives (Function (fun _ => Throw (VString "late")))
              else Raises (VString "now"))
           [true] [true] false (VString "now") VNull).
  - intros x [<- | []]. eexists. reflexivity.
  - reflexivity.
Defined.

(** ** [asyncFilter] *)

Lemma setSlot_length i o l : List.length (setSlot i o l) = List.length l.
Proof.
  revert i. induction l as [|x l IH]; intros [|i]; cbn; try reflexivity.
  now rewrite IH.
Qed.

Lemma setSlot_nth i o l : forall k,
  nth_error (setSlot i o l) k =
  if Nat.eqb k i then
    match nth_error l k with Some _ => Some (Some o) | None => None end
  else nth_error l k.
Proof.
  revert i. induction l as [|x l IH]; intros i k.
  - destruct i, k; cbn; try reflexivity. now destruct (Nat.eqb k i).
  - destruct i as [|i], k as [|k]; cbn; try reflexivity. apply IH.
Qed.

Lemma settleSlot_nth g ev k :
  nth_error (slots (settleSlot g ev)) k =
  match nth_error (slots g) k with
  | Some None => if Nat.eqb (fst ev) k then Some (Some (snd ev)) else Some None
  | x => x
  end.
Proof.
  unfold settleSlot.
  destruct (nth_error (slots g) (fst ev)) as [[o|]|] eqn:E; cbn [slots].
  - destruct (Nat.eqb (fst ev) k) eqn:Ek.
    + apply Nat.eqb_eq in Ek. subst k. now rewrite E.
    + now destruct (nth_error (slots g) k) as [[?|]|].
  - rewrite setSlot_nth. rewrite Nat.eqb_sym.
    destruct (Nat.eqb (fst ev) k) eqn:Ek.
    + apply Nat.eqb_eq in Ek. subst k. now rewrite E.
    + now destruct (nth_error (slots g) k) as [[?|]|].
  - destruct (Nat.eqb (fst ev) k) eqn:Ek.
    + apply Nat.eqb_eq in Ek. subst k. now rewrite E.
    + now destruct (nth_error (slots g) k) as [[?|]|].
Qed.

(** Each promise is recorded with its first settlement. *)
Lemma slots_fold evs : forall g k,
  nth_error (slots (fold_left settleSlot evs g)) k =
  match nth_error (slots g) k with
  | Some None =>
      match outcomeOf evs k with
      | Some o => Some (Some o)
      | None => Some None
      end
  | x => x
  end.
Proof.
  induction evs as [|[j o] evs IH]; intros g k; cbn [fold_left outcomeOf].
  - now destruct (nth_error (slots g) k) as [[?|]|].
  - rewrite IH, settleSlot_nth. cbn [fst snd].
    destruct (nth_error (slots g) k) as [[?|]|]; try reflexivity.
    now destruct (Nat.eqb j k).
Qed.

Lemma gatheringOf_nth n k :
  nth_error (slots (gatheringOf n)) k = if Nat.ltb k n then Some None else None.
Proof.
  cbn [gatheringOf slots]. revert k.
  induction n as [|n IH]; intros [|k]; cbn [repeat nth_error]; try reflexivity.
  rewrite IH. reflexivity.
Qed.

Lemma settleSlot_rejectionOnRecord g ev :
  rejectionOnRecord g -> rejectionOnRecord (settleSlot g ev).
Proof.
  intros Hrec r0. unfold settleSlot.
  destruct (nth_error (slots g) (fst ev)) as [[o|]|] eqn:E;
    [apply Hrec | | apply Hrec].
  cbn [firstRejection slots]. intros Hfirst.
  destruct (firstRejection g) as [seen|] eqn:Hseen.
  - destruct (Hrec seen Hseen) as (k & r & Hk).
    exists k, r. rewrite setSlot_nth.
    destruct (Nat.eqb k (fst ev)) eqn:Ek; [| exact Hk].
    apply Nat.eqb_eq in Ek. subst k. congruence.
  - destruct (snd ev) as [v|r] eqn:Ho; [discriminate |].
    exists (fst ev), r. rewrite setSlot_nth, Nat.eqb_refl, E. reflexivity.
Qed.

Lemma fold_rejectionOnRecord evs : forall g,
  rejectionOnRecord g -> rejectionOnRecord (fold_left settleSlot evs g).
Proof.
  induction evs as [|ev evs IH]; intros g Hrec; cbn [fold_left]; [exact Hrec |].
  apply IH, settleSlot_rejectionOnRecord, Hrec.
Qed.

Lemma fulfilledValues_map results :
  fulfilledValues (map (fun v => Some (Fulfil v)) results) = Some results.
Proof.
  induction results as [|v results IH]; cbn; [reflexivity | now rewrite IH].
Qed.

(** When every promise is fulfilled, the returned promise is fulfilled with
    the items whose result is truthy, in the order of [arr], whatever the
    order in which the promises settled; settlements of a promise that has
    settled already, or of no promise of the call, are ignored. *)
Theorem asyncFilter_keeps_truthy_items_in_order {A : Type}
    (arr : list A) (results : list value) (evs : list (nat * outcome)) :
  List.length results = List.length arr ->
  (forall i v, nth_error results i = Some v -> outcomeOf evs i = Some (Fulfil v)) ->
  asyncFilter arr evs = FulfilledWith (keepTruthy (combine arr results)).
Proof.
  intros Hlen Hall. unfold asyncFilter.
  set (g := fold_left settleSlot evs (gatheringOf (List.length arr))).
  assert (Hslots : slots g = map (fun v => Some (Fulfil v)) results).
  { apply nth_error_ext. intros k. unfold g.
    rewrite slots_fold, gatheringOf_nth, nth_error_map, <- Hlen.
    destruct (nth_error results k) as [v|] eqn:Hk.
    - assert (Hlt : (k < List.length results)%nat)
        by (apply nth_error_Some; congruence).
      apply Nat.ltb_lt in Hlt. rewrite Hlt, (Hall k v Hk). reflexivity.
    - apply nth_error_None in Hk.
      replace (Nat.ltb k (List.length results)) with false; [reflexivity |].
      symmetry. apply Nat.ltb_ge. exact Hk. }
  assert (Hnone : firstRejection g = None).
  { destruct (firstRejection g) as [r0|] eqn:Hfirst; [| reflexivity].
    assert (Hrec : rejectionOnRecord g).
    { apply fold_rejectionOnRecord. intros r1 Hr1. discriminate. }
    destruct (Hrec r0 Hfirst) as (k & r & Hk).
    rewrite Hslots, nth_error_map in Hk.
    destruct (nth_error results k); discriminate. }
  unfold allSettled. now rewrite Hnone, Hslots, fulfilledValues_map.
Qed.

Lemma asyncFilter_keeps_truthy_items_in_order_witness :
  asyncFilter ["a.js"; "b.js"; "c.js"]%string
    [(2%nat, Fulfil (VBoolean true)); (0%nat, Fulfil (VNumber 1));
     (2%nat, Reject VNull); (1%nat, Fulfil (VString ""))]
  = FulfilledWith ["a.js"; "c.js"]%string.
Proof.
  apply (asyncFilter_keeps_truthy_items_in_order
           ["a.js"; "b.js"; "c.js"]%string
           [VNumber 1; VString ""; VBoolean true]
           [(2%nat, Fulfil (VBoolean true)); (0%nat, Fulfil (VNumber 1));
            (2%nat, Reject VNull); (1%nat, Fulfil (VString ""))]).
  - reflexivity.
  - intros [|[|[|i]]] v Hv; cbn in Hv; try (destruct i; discriminate);
      injection Hv as <-; reflexivity.
Defined.

Lemma fold_no_rejection evs : forall g,
  firstRejection g = None ->
  (forall j o, In (j, o) evs -> exists v, o = Fulfil v) ->
  firstRejection (fold_left settleSlot evs g) = None.
Proof.
  induction evs as [|[j o] evs IH]; intros g Hnone Hful; cbn [fold_left];
    [exact Hnone |].
  apply IH; [| intros j' o' Hin; apply (Hful j' o'); now right].
  destruct (Hful j o (or_introl eq_refl)) as (v & ->).
  unfold settleSlot. cbn [fst snd].
  destruct (nth_error (slots g) j) as [[?|]|]; try exact Hnone.
  cbn [firstRejection]. now rewrite Hnone.
Qed.

Lemma fold_rejection_kept evs : forall g r,
  firstRejection g = Some r ->
  firstRejection (fold_left settleSlot evs g) = Some r.
Proof.
  induction evs as [|ev evs IH]; intros g r Hsome; cbn [fold_left];
    [exact Hsome |].
  apply IH. unfold settleSlot.
  destruct (nth_error (slots g) (fst ev)) as [[?|]|]; try exact Hsome.
  cbn [firstRejection]. now rewrite Hsome.
Qed.

Lemma outcomeOf_absent evs i :
  (forall j o, In (j, o) evs -> j <> i) -> outcomeOf evs i = None.
Proof.
  induction evs as [|[j o] evs IH]; intros Habs; cbn [outcomeOf]; [reflexivity |].
  destruct (Nat.eqb j i) eqn:E.
  - apply Nat.eqb_eq in E. now destruct (Habs j o (or_introl eq_refl)).
  - apply IH. intros j' o' Hin. apply (Habs j' o'). now right.
Qed.

(** The first promise that is rejected rejects the returned promise with
    its reason; what the other promises do afterwards changes nothing. *)
Theorem asyncFilter_first_rejection_wins {A : Type}
    (arr : list A) (before after : list (nat * outcome)) (i : nat) (r : value) :
  (i < List.length arr)%nat ->
  (forall j o, In (j, o) before -> j <> i /\ exists v, o = Fulfil v) ->
  asyncFilter arr (before ++ (i, Reject r) :: after) = RejectedWith r.
Proof.
  intros Hi Hbefore. unfold asyncFilter.
  rewrite fold_left_app. cbn [fold_left].
  set (g := fold_left settleSlot before (gatheringOf (List.length arr))).
  assert (Hnone : firstRejection g = None).
  { apply fold_no_rejection; [reflexivity |].
    intros j o Hin. now destruct (Hbefore j o Hin). }
  assert (Hslot : nth_error (slots g) i = Some None).
  { unfold g. rewrite slots_fold, gatheringOf_nth.
    apply Nat.ltb_lt in Hi. rewrite Hi.
    rewrite outcomeOf_absent; [reflexivity |].
    intros j o Hin. now destruct (Hbefore j o Hin). }
  assert (Hrej : firstRejection (settleSlot g (i, Reject r)) = Some r).
  { unfold settleSlot. cbn [fst snd]. rewrite Hslot. cbn [firstRejection].
    now rewrite Hnone. }
  unfold allSettled. now rewrite (fold_rejection_kept after _ r Hrej).
Qed.

Lemma asyncFilter_first_rejection_wins_witness :
  asyncFilter ["a.js"; "b.js"; "c.js"]%string
    ([(2%nat, Fulfil (VBoolean true))]
     ++ (0%nat, Reject (VString "EACCES"))
     :: [(1%nat, Reject (VString "later")); (0%nat, Fulfil VNull)])
  = RejectedWith (VString "EACCES").
Proof.
  apply (asyncFilter_first_rejection_wins
           ["a.js"; "b.js"; "c.js"]%string
           [(2%nat, Fulfil (VBoolean true))]
           [(1%nat, Reject (VString "later")); (0%nat, Fulfil VNull)]
           0%nat (VString "EACCES")).
  - cbn. lia.
  - intros j o [Heq | []]. injection Heq as <- <-.
    split; [discriminate | now eexists].
Defined.

Lemma fulfilledValues_pending l k :
  nth_error l k = Some None -> fulfilledValues l = None.
Proof.
  revert k. induction l as [|x l IH]; intros [|k] Hk; cbn in Hk; try discriminate.
  - injection Hk as ->. reflexivity.
  - cbn [fulfilledValues]. destruct x as [[v|r]|]; try reflexivity.
    now rewrite (IH k Hk).
Qed.

(** While no promise has been rejected and some promise of the call has not
    settled, the returned promise is pending: the result is never given out
    early. *)
Theorem asyncFilter_waits_for_every_promise {A : Type}
    (arr : list A) (evs : list (nat * outcome)) (i : nat) :
  (i < List.length arr)%nat ->
  outcomeOf evs i = None ->
  (forall j o, In (j, o) evs -> exists v, o = Fulfil v) ->
  asyncFilter arr evs = StillPending.
Proof.
  intros Hi Hwait Hful. unfold asyncFilter, allSettled.
  rewrite fold_no_rejection by (reflexivity || exact Hful).
  rewrite (fulfilledValues_pending _ i); [reflexivity |].
  rewrite slots_fold, gatheringOf_nth. apply Nat.ltb_lt in Hi.
  now rewrite Hi, Hwait.
Qed.

Lemma asyncFilter_waits_for_every_promise_witness :
  asyncFilter ["a.js"; "b.js"]%string [(1%nat, Fulfil (VBoolean true))]
  = StillPending.
Proof.
  apply (asyncFilter_waits_for_every_promise
           ["a.js"; "b.js"]%string [(1%nat, Fulfil (VBoolean true))] 0%nat).
  - cbn. lia.
  - reflexivity.
  - intros j o [Heq | []]. injection Heq as <- <-. now eexists.
Defined.

(** ** Objects *)

(** Induction on trees: a property of an object may rely on the property of
    every value the object holds. *)
Lemma jv_induction (P : jv -> Prop) :
  P JUndefined -> P JNull -> (forall a, P (JAtom a)) ->
  (forall plain frozen props,
     Forall (fun entry => P (snd entry)) props -> P (JObject plain frozen props)) ->
  forall v, P v.
Proof.
  intros Hu Hn Ha Ho. fix IH 1. intros [| |a|plain frozen props].
  - exact Hu.
  - exact Hn.
  - apply Ha.
  - apply Ho. induction props as [|entry props IHprops]; constructor.
    + apply IH.
    + exact IHprops.
Qed.

(** ** [deepFreeze] *)

Lemma freezeObjects_frozen except v :
  isFrozen v = false -> isFrozen (freezeObjects except v) = true.
Proof. destruct v; cbn; congruence. Qed.

Lemma freezeObjects_deep except :
  (forall key, excepted except key = false) ->
  forall v, frozenMeansDeep v = true -> deeplyFrozen (freezeObjects except v) = true.
Proof.
  intros Hnone. induction v as [| |a|plain frozen props IH] using jv_induction;
    try reflexivity.
  cbn [frozenMeansDeep freezeObjects deeplyFrozen andb]. intros Hdeep.
  rewrite forallb_forall in Hdeep. rewrite Forall_forall in IH.
  apply forallb_forall. intros entry' Hin.
  apply in_map_iff in Hin as ([key v] & <- & Hin).
  specialize (Hdeep (key, v) Hin). specialize (IH (key, v) Hin).
  cbn [snd] in Hdeep, IH. apply andb_true_iff in Hdeep as [Hfrozen Hbelow].
  rewrite Hnone. destruct (isFrozen v); cbn [snd].
  - exact Hfrozen.
  - now apply IH.
Qed.

(** With no excepted key, [deepFreeze] leaves every object of the tree
    frozen, provided the objects that were frozen before are frozen all the
    way down (as they are when nothing was frozen before, or when they were
    frozen by [deepFreeze]). *)
Theorem deepFreeze_freezes_every_object object except result :
  (forall key, excepted except key = false) ->
  frozenMeansDeep object = true ->
  deepFreeze object except = Some result ->
  deeplyFrozen result = true.
Proof.
  intros Hnone Hdeep Hrun.
  assert (Hresult : result = freezeObjects except object).
  { unfold deepFreeze in Hrun. destruct object; try discriminate; congruence. }
  subst result. now apply freezeObjects_deep.
Qed.

Lemma deepFreeze_freezes_every_object_witness :
  deeplyFrozen (freezeObjects None sampleConfig) = true.
Proof.
  apply (deepFreeze_freezes_every_object sampleConfig None
           (freezeObjects None sampleConfig)); reflexivity.
Defined.

(** Freezing twice is freezing once. *)
Theorem deepFreeze_is_idempotent object except result :
  deepFreeze object except = Some result ->
  deepFreeze result except = Some result.
Proof.
  unfold deepFreeze. intros Hrun.
  destruct object as [| |a|plain frozen props]; try discriminate;
    injection Hrun as <-; [reflexivity |].
  cbn [freezeObjects]. f_equal. f_equal.
  rewrite map_map. apply map_ext. intros [key v].
  destruct (excepted except key) eqn:Ex; [now rewrite Ex |].
  destruct (isFrozen v) eqn:Ef; [now rewrite Ex, Ef |].
  now rewrite Ex, (freezeObjects_frozen except v Ef).
Qed.

Lemma deepFreeze_is_idempotent_witness :
  deepFreeze (freezeObjects (Some ["watched"%string]) sampleConfig)
    (Some ["watched"%string])
  = Some (freezeObjects (Some ["watched"%string]) sampleConfig).
Proof.
  apply (deepFreeze_is_idempotent sampleConfig (Some ["watched"%string])).
  reflexivity.
Defined.

Lemma freezeObjects_thawed except v :
  thawed (freezeObjects except v) = thawed v.
Proof.
  induction v as [| |a|plain frozen props IH] using jv_induction;
    try reflexivity.
  cbn [freezeObjects thawed]. f_equal. rewrite map_map.
  apply map_ext_in. intros [key x] Hin. rewrite Forall_forall in IH.
  specialize (IH (key, x) Hin). cbn [snd] in IH.
  destruct (excepted except key); [reflexivity |].
  destruct (isFrozen x); [reflexivity |]. cbn [fst snd]. now rewrite IH.
Qed.

(** [deepFreeze] changes nothing but the frozen marks: keys, their order and
    the values are what they were. *)
Theorem deepFreeze_changes_only_the_frozen_marks object except result :
  deepFreeze object except = Some result ->
  thawed result = thawed object.
Proof.
  intros Hrun.
  assert (Hresult : result = freezeObjects except object).
  { unfold deepFreeze in Hrun. destruct object; try discriminate; congruence. }
  subst result. apply freezeObjects_thawed.
Qed.

Lemma deepFreeze_changes_only_the_frozen_marks_witness :
  thawed (freezeObjects None sampleConfig) = thawed sampleConfig.
Proof.
  apply (deepFreeze_changes_only_the_frozen_marks sampleConfig None).
  reflexivity.
Defined.

(** ** [deepAssign] *)

Lemma deepAssign_object target plain frozen props filter :
  deepAssign target (JObject plain frozen props) filter =
  fold_left
    (assignEntry filter (shouldMergeOf filter target (JObject plain frozen props)))
    props (Some target).
Proof. reflexivity. Qed.

Lemma fold_assignEntry_None filter shouldMerge entries :
  fold_left (assignEntry filter shouldMerge) entries None = None.
Proof. induction entries as [|entry entries IH]; [reflexivity | exact IH]. Qed.

Lemma lookupProp_storeProp_same key v props :
  lookupProp key (storeProp key v props) = v.
Proof.
  induction props as [|[k x] props IH]; cbn.
  - now rewrite String.eqb_refl.
  - destruct (String.eqb k key) eqn:E; cbn; now rewrite E.
Qed.

Lemma lookupProp_storeProp_other key key' v props :
  key' <> key -> lookupProp key' (storeProp key v props) = lookupProp key' props.
Proof.
  intros Hne. induction props as [|[k x] props IH]; cbn.
  - destruct (String.eqb key key') eqn:E; [| reflexivity].
    apply String.eqb_eq in E. congruence.
  - destruct (String.eqb k key) eqn:E; cbn.
    + apply String.eqb_eq in E. subst k.
      destruct (String.eqb key key') eqn:E'; [| reflexivity].
      apply String.eqb_eq in E'. congruence.
    + destruct (String.eqb k key'); [reflexivity | exact IH].
Qed.

Lemma storeProp_held key v props :
  In key (map fst props) -> lookupProp key props = v -> storeProp key v props = props.
Proof.
  induction props as [|[k x] props IH]; cbn; [intros [] |].
  intros Hin Hlook. destruct (String.eqb k key) eqn:E.
  - now subst x.
  - f_equal. apply IH; [| exact Hlook].
    destruct Hin as [-> | Hin]; [| exact Hin].
    now rewrite String.eqb_refl in E.
Qed.

Lemma lookupProp_absent key props :
  ~ In key (map fst props) -> lookupProp key props = JUndefined.
Proof.
  induction props as [|[k x] props IH]; cbn; [reflexivity |].
  intros Habs. destruct (String.eqb k key) eqn:E.
  - apply String.eqb_eq in E. subst k. destruct Habs. now left.
  - apply IH. intros Hin. apply Habs. now right.
Qed.

Lemma storeProp_keys key v props k :
  In k (map fst (storeProp key v props)) <-> In k (map fst props) \/ k = key.
Proof.
  induction props as [|[k0 x] props IH]; cbn.
  - intuition congruence.
  - destruct (String.eqb k0 key) eqn:E; cbn.
    + apply String.eqb_eq in E. subst k0. intuition congruence.
    + rewrite IH. intuition congruence.
Qed.

(** One turn of the loop on an object: the key of the entry now holds the
    source value, or the merge of what was held with it; every other key
    holds what it held. *)
Lemma assignEntry_spec filter shouldMerge plain frozen props key value result :
  assignEntry filter shouldMerge (Some (JObject plain frozen props)) (key, value)
  = Some result ->
  exists props',
    result = JObject plain frozen props'
    /\ In key (map fst props')
    /\ (forall k, In k (map fst props) -> In k (map fst props'))
    /\ (forall k, k <> key -> lookupProp k props' = lookupProp k props)
    /\ (if isPlainObject value && shouldMerge key value
        then deepAssign (mergeBase (lookupProp key props)) value filter
             = Some (lookupProp key props')
        else lookupProp key props' = value /\ frozen = false).
Proof.
  unfold assignEntry, mergeBase. cbn [getProp].
  destruct (isPlainObject value && shouldMerge key value).
  - destruct (isNullish (lookupProp key props)) eqn:Enull.
    + unfold setProp. destruct frozen; [discriminate |].
      destruct (deepAssign emptyObject value filter) as [merged|] eqn:Em;
        [| discriminate].
      intros Hres. injection Hres as <-. cbn [holdProp].
      eexists. split; [reflexivity |]. repeat split.
      * apply storeProp_keys. now right.
      * intros k Hk. apply storeProp_keys. left. apply storeProp_keys. now left.
      * intros k Hk. now rewrite !lookupProp_storeProp_other.
      * now rewrite lookupProp_storeProp_same.
    + destruct (deepAssign (lookupProp key props) value filter) as [merged|] eqn:Em;
        [| discriminate].
      intros Hres. injection Hres as <-. cbn [holdProp].
      eexists. split; [reflexivity |]. repeat split.
      * apply storeProp_keys. now right.
      * intros k Hk. apply storeProp_keys. now left.
      * intros k Hk. now rewrite lookupProp_storeProp_other.
      * now rewrite lookupProp_storeProp_same.
  - unfold setProp. destruct frozen; [discriminate |].
    intros Hres. injection Hres as <-.
    eexists. split; [reflexivity |]. repeat split.
    + apply storeProp_keys. now right.
    + intros k Hk. apply storeProp_keys. now left.
    + intros k Hk. now rewrite lookupProp_storeProp_other.
    + now rewrite lookupProp_storeProp_same.
Qed.

(** The whole loop on an object, for a source without repeated keys. *)
Lemma fold_assignEntry_spec filter shouldMerge entries :
  NoDup (map fst entries) ->
  forall plain frozen props result,
    fold_left (assignEntry filter shouldMerge) entries
      (Some (JObject plain frozen props)) = Some result ->
    exists props',
      result = JObject plain frozen props'
      /\ (forall k, In k (map fst props) \/ In k (map fst entries) ->
                    In k (map fst props'))
      /\ (forall k, ~ In k (map fst entries) ->
                    lookupProp k props' = lookupProp k props)
      /\ (forall key value, In (key, value) entries ->
            if isPlainObject value && shouldMerge key value
            then deepAssign (mergeBase (lookupProp key props)) value filter
                 = Some (lookupProp key props')
            else lookupProp key props' = value /\ frozen = false).
Proof.
  induction entries as [|[key value] entries IH];
    intros Hnodup plain frozen props result Hrun.
  - cbn in Hrun. injection Hrun as <-. exists props. repeat split.
    + intros k [Hk | []]. exact Hk.
    + intros key value [].
  - cbn [fold_left] in Hrun. cbn [map fst] in Hnodup.
    inversion Hnodup as [|? ? Hfresh Hnodup']; subst.
    destruct (assignEntry filter shouldMerge (Some (JObject plain frozen props))
                (key, value)) as [middle|] eqn:Estep;
      [| rewrite fold_assignEntry_None in Hrun; discriminate].
    destruct (assignEntry_spec _ _ _ _ _ _ _ _ Estep)
      as (props1 & -> & Hkey1 & Hkeys1 & Hother1 & Hthis1).
    destruct (IH Hnodup' plain frozen props1 result Hrun)
      as (props' & -> & Hkeys & Hother & Hthese).
    exists props'. split; [reflexivity |]. repeat split.
    + intros k [Hk | [<- | Hk]]; apply Hkeys; auto.
    + intros k Habs. rewrite Hother by (intros Hin; apply Habs; now right).
      apply Hother1. intros ->. apply Habs. now left.
    + intros key' value' [Heq | Hin].
      * injection Heq as <- <-. rewrite (Hother key Hfresh). exact Hthis1.
      * assert (Hne : key' <> key).
        { intros ->. apply Hfresh. apply in_map_iff. now exists (key, value'). }
        specialize (Hthese key' value' Hin).
        now rewrite (Hother1 key' Hne) in Hthese.
Qed.

(** What a successful [deepAssign] of an object into an object returns. *)
Lemma deepAssign_spec target source filter result :
  isObject target = true ->
  isObject source = true ->
  NoDup (keysOf (propsOf source)) ->
  deepAssign target source filter = Some result ->
  isObject result = true
  /\ isFrozen result = isFrozen target
  /\ isPlainObject result = isPlainObject target
  /\ (forall k, In k (keysOf (propsOf target)) \/ In k (keysOf (propsOf source)) ->
                In k (keysOf (propsOf result)))
  /\ (forall k, ~ In k (keysOf (propsOf source)) ->
                getProp result k = getProp target k)
  /\ (forall key value, In (key, value) (propsOf source) ->
        if isPlainObject value && shouldMergeOf filter target source key value
        then exists merged,
               getProp target key = Some (lookupProp key (propsOf target))
               /\ deepAssign (mergeBase (lookupProp key (propsOf target))) value filter
                  = Some merged
               /\ getProp result key = Some merged
        else getProp result key = Some value /\ isFrozen target = false).
Proof.
  intros Ht Hs Hnodup Hrun.
  destruct target as [| | |tplain tfrozen tprops]; try discriminate.
  destruct source as [| | |splain sfrozen sprops]; try discriminate.
  cbn [propsOf] in *. rewrite deepAssign_object in Hrun.
  destruct (fold_assignEntry_spec _ _ _ Hnodup _ _ _ _ Hrun)
    as (props' & -> & Hkeys & Hother & Hthese).
  cbn [isObject isFrozen isPlainObject propsOf getProp].
  repeat split; try assumption.
  - intros k Hk. now rewrite Hother.
  - intros key value Hin. specialize (Hthese key value Hin).
    destruct (isPlainObject value
              && shouldMergeOf filter (JObject tplain tfrozen tprops)
                   (JObject splain sfrozen sprops) key value).
    + eexists. repeat split. exact Hthese.
    + destruct Hthese as [-> ->]. now split.
Qed.



(** Between plain objects, and with no key that names a property of
    [Object.prototype], a source value that is not a plain object, or that
    the filter refuses to merge, replaces what the target held under its
    key. *)
Theorem deepAssign_source_value_wins target source filter result key value :
  isObject target = true ->
  isObject source = true ->
  NoDup (keysOf (propsOf source)) ->
  ordinaryMerge filter target source = true ->
  In (key, value) (propsOf source) ->
  isPlainObject value && shouldMergeOf filter target source key value = false ->
  deepAssign target source filter = Some result ->
  getProp result key = Some value.
Proof.
  intros Ht Hs Hnodup _ Hin Hkind Hrun.
  destruct (deepAssign_spec target source filter result Ht Hs Hnodup Hrun)
    as (_ & _ & _ & _ & _ & Hthese).
  specialize (Hthese key value Hin). rewrite Hkind in Hthese.
  now destruct Hthese.
Qed.

Lemma deepAssign_source_value_wins_witness :
  getProp sampleMerged "optimize" = Some (JAtom (ABoolean true)).
Proof.
  apply (deepAssign_source_value_wins sampleConfig sampleOverride None
           sampleMerged "optimize" (JAtom (ABoolean true))).
  - reflexivity.
  - reflexivity.
  - repeat constructor; cbn; intuition discriminate.
  - reflexivity.
  - right. now left.
  - reflexivity.
  - reflexivity.
Defined.



Lemma setProp_deeplyFrozen target key v :
  deeplyFrozen target = true -> setProp target key v = None.
Proof.
  destruct target as [| | |plain [|] props]; cbn; try reflexivity. discriminate.
Qed.

Lemma deeplyFrozen_lookupProp plain frozen props key :
  deeplyFrozen (JObject plain frozen props) = true ->
  deeplyFrozen (lookupProp key props) = true.
Proof.
  cbn [deeplyFrozen]. intros H. apply andb_true_iff in H as [_ H].
  induction props as [|[k x] props IH]; cbn in *; [reflexivity |].
  apply andb_true_iff in H as [Hx Hrest].
  destruct (String.eqb k key); [exact Hx | now apply IH].
Qed.

Lemma lookupProp_present key props :
  isNullish (lookupProp key props) = false -> In key (map fst props).
Proof.
  intros Hheld. destruct (in_dec string_dec key (map fst props)) as [Hin | Habs];
    [exact Hin |].
  rewrite (lookupProp_absent key props Habs) in Hheld. discriminate.
Qed.

Lemma assignEntry_deeplyFrozen filter shouldMerge target key value :
  deeplyFrozen target = true ->
  (forall held, deeplyFrozen held = true ->
     deepAssign held value filter = None \/ deepAssign held value filter = Some held) ->
  assignEntry filter shouldMerge (Some target) (key, value) = None
  \/ assignEntry filter shouldMerge (Some target) (key, value) = Some target.
Proof.
  intros Hdeep IH. unfold assignEntry.
  rewrite !(setProp_deeplyFrozen target) by exact Hdeep.
  destruct (isPlainObject value && shouldMerge key value); [| now left].
  destruct target as [| |a|plain frozen props]; cbn [getProp isNullish];
    try now left.
  destruct (isNullish (lookupProp key props)) eqn:Enull; [now left |].
  destruct (IH (lookupProp key props)
              (deeplyFrozen_lookupProp plain frozen props key Hdeep))
    as [-> | ->]; [now left | right].
  cbn [holdProp]. do 2 f_equal.
  apply storeProp_held; [now apply lookupProp_present | reflexivity].
Qed.

Lemma fold_assignEntry_deeplyFrozen filter shouldMerge target props :
  deeplyFrozen target = true ->
  Forall (fun entry =>
            forall held, deeplyFrozen held = true ->
              deepAssign held (snd entry) filter = None
              \/ deepAssign held (snd entry) filter = Some held) props ->
  forall acc, acc = None \/ acc = Some target ->
    fold_left (assignEntry filter shouldMerge) props acc = None
    \/ fold_left (assignEntry filter shouldMerge) props acc = Some target.
Proof.
  intros Hdeep IH. induction props as [|[key value] props IHprops];
    intros acc Hacc; cbn [fold_left].
  - exact Hacc.
  - inversion IH as [|? ? Hvalue Hrest]; subst. cbn [snd] in Hvalue.
    apply (IHprops Hrest).
    destruct Hacc as [-> | ->]; [now left |].
    now apply assignEntry_deeplyFrozen.
Qed.

Lemma deepAssign_deeplyFrozen filter source :
  forall target, deeplyFrozen target = true ->
    deepAssign target source filter = None
    \/ deepAssign target source filter = Some target.
Proof.
  induction source as [| |a|plain frozen props IH] using jv_induction;
    intros target Hdeep.
  - now left.
  - now left.
  - destruct a as [n|b|s]; try now right.
    cbn [deepAssign]. generalize 0%nat. intros i.
    destruct s as [|c s]; [now right | left].
    cbn [stringEntries fold_left fst snd].
    rewrite (setProp_deeplyFrozen target) by exact Hdeep.
    generalize (stringEntries (S i) s). intros l.
    induction l as [|e l IHl]; [reflexivity | exact IHl].
  - rewrite deepAssign_object.
    apply fold_assignEntry_deeplyFrozen; [exact Hdeep | exact IH | now right].
Qed.

(** [deepAssign] cannot change a target in which every object is frozen:
    whatever the source and the filter, it throws or returns the target as it
    was. *)
Theorem deepAssign_cannot_change_a_deeply_frozen_target target source filter :
  deeplyFrozen target = true ->
  deepAssign target source filter = None
  \/ deepAssign target source filter = Some target.
Proof. apply deepAssign_deeplyFrozen. Qed.

Lemma deepAssign_cannot_change_a_deeply_frozen_target_witness :
  deepAssign (freezeObjects None sampleConfig) sampleOverride None = None
  \/ deepAssign (freezeObjects None sampleConfig) sampleOverride None
     = Some (freezeObjects None sampleConfig).
Proof.
  apply (deepAssign_cannot_change_a_deeply_frozen_target
           (freezeObjects None sampleConfig) sampleOverride None).
  reflexivity.
Defined.

(** After [deepFreeze] without excepted keys, on an object in which nothing
    was frozen half-way, [deepAssign] into the frozen object throws or leaves
    it as it is. *)
Theorem deepFreeze_protects_against_deepAssign
    object except frozenObject source filter :
  (forall key, excepted except key = false) ->
  frozenMeansDeep object = true ->
  deepFreeze object except = Some frozenObject ->
  deepAssign frozenObject source filter = None
  \/ deepAssign frozenObject source filter = Some frozenObject.
Proof.
  intros Hnone Hdeep Hfreeze. apply deepAssign_deeplyFrozen.
  assert (Hresult : frozenObject = freezeObjects except object).
  { unfold deepFreeze in Hfreeze.
    destruct object; try discriminate; congruence. }
  subst frozenObject. now apply freezeObjects_deep.
Qed.

Lemma deepFreeze_protects_against_deepAssign_witness :
  deepAssign (freezeObjects None sampleConfig) sampleOverride None = None
  \/ deepAssign (freezeObjects None sampleConfig) sampleOverride None
     = Some (freezeObjects None sampleConfig).
Proof.
  apply (deepFreeze_protects_against_deepAssign
           sampleConfig None (freezeObjects None sampleConfig)
           sampleOverride None); reflexivity.
Defined.

Lemma assignEntry_primitive filter shouldMerge a entry :
  assignEntry filter shouldMerge (Some (JAtom a)) entry = None.
Proof.
  destruct entry as [key value]. unfold assignEntry. cbn [getProp isNullish setProp].
  now destruct (isPlainObject value && shouldMerge key value).
Qed.

Lemma deepAssign_primitive_target a plain frozen entry entries filter :
  deepAssign (JAtom a) (JObject plain frozen (entry :: entries)) filter = None.
Proof.
  rewrite deepAssign_object. cbn [fold_left].
  rewrite assignEntry_primitive. apply fold_assignEntry_None.
Qed.

(** Merging a plain object into a key under which the target holds a
    primitive throws as soon as the plain object has, under a key other than
    ["__proto__"], a value that is stored rather than merged (one that is not
    a plain object, or that the filter refuses to merge): a primitive cannot
    take properties. *)
Theorem deepAssign_into_a_primitive_throws
    target source filter key a vfrozen inner key2 value2 :
  isObject target = true ->
  isObject source = true ->
  NoDup (keysOf (propsOf source)) ->
  getProp target key = Some (JAtom a) ->
  In (key, JObject true vfrozen inner) (propsOf source) ->
  shouldMergeOf filter target source key (JObject true vfrozen inner) = true ->
  In (key2, value2) inner ->
  key2 <> "__proto__"%string ->
  isPlainObject value2
  && shouldMergeOf filter (JAtom a) (JObject true vfrozen inner) key2 value2
  = false ->
  deepAssign target source filter = None.
Proof.
  intros Ht Hs Hnodup Hheld Hin Hmerge Hin2 _ _.
  destruct (deepAssign target source filter) as [result|] eqn:Hrun;
    [exfalso | reflexivity].
  destruct (deepAssign_spec target source filter result Ht Hs Hnodup Hrun)
    as (_ & _ & _ & _ & _ & Hthese).
  specialize (Hthese _ _ Hin). cbn [isPlainObject andb] in Hthese.
  rewrite Hmerge in Hthese. destruct Hthese as (merged & Hget & Hmerged & _).
  rewrite Hheld in Hget. injection Hget as Hget. rewrite <- Hget in Hmerged.
  cbn [mergeBase isNullish] in Hmerged.
  destruct inner as [|entry entries]; [destruct Hin2 |].
  rewrite deepAssign_primitive_target in Hmerged. discriminate.
Qed.

Lemma deepAssign_into_a_primitive_throws_witness :
  deepAssign sampleConfig
    (JObject true false
       [("sourceMaps"%string,
         JObject true false [("inline"%string, JAtom (ABoolean true))])])
    None
  = None.
Proof.
  apply (deepAssign_into_a_primitive_throws sampleConfig
           (JObject true false
              [("sourceMaps"%string,
                JObject true false [("inline"%string, JAtom (ABoolean true))])])
           None "sourceMaps" (ABoolean true) false
           [("inline"%string, JAtom (ABoolean true))]
           "inline" (JAtom (ABoolean true))).
  - reflexivity.
  - reflexivity.
  - repeat constructor; cbn; intuition.
  - reflexivity.
  - now left.
  - reflexivity.
  - now left.
  - discriminate.
  - reflexivity.
Defined.








